(** * The schema compiler of [packages/db/src/internal.ts]

    A shallow embedding of the module that turns a collection definition
    into (a) the text of a [CREATE TABLE] statement and (b) a drizzle
    column model, followed by the properties proved about it.

    Conventions of the embedding:
    - a JavaScript string is a Rocq [string]: a sequence of code units
      below 256;
    - a JavaScript object used as a record of named entries (the fields
      of a collection, the collections of a project, the properties of a
      JSON object) is the association list that [Object.entries]
      enumerates, in that order;
    - a function that may throw, or stop the process, returns an
      [Outcome];
    - what the source leaves to the JavaScript engine or to the process
      environment is a field of the class [Host]. *)

From Stdlib Require Import ZArith String Ascii List Lia Bool.
From stdpp Require Import gmap strings list fin_maps.

(* ------------------------------------------------------------------ *)
(** ** Outcomes: return, throw, or leave the process *)

Inductive Exception :=
| TypeError (message : string)
| RangeError (message : string)
| SyntaxError (message : string)
| ZodError (message : string).

Inductive Outcome (A : Type) :=
| Returns (a : A)
| Throws (e : Exception)
| Exits (code : Z) (console : list string).

Arguments Returns {A} a.
Arguments Throws {A} e.
Arguments Exits {A} code console.

Definition bind {A B} (m : Outcome A) (k : A -> Outcome B) : Outcome B :=
  match m with
  | Returns a => k a
  | Throws e => Throws e
  | Exits code console => Exits code console
  end.

Notation "'do' x <- m ; k" := (bind m (fun x => k))
  (at level 10, x name, m at level 100, k at level 200).

(** [try { body } catch (e) { handler }] *)
Definition try_catch {A} (body : Outcome A) (handler : Exception -> Outcome A)
  : Outcome A :=
  match body with
  | Throws e => handler e
  | other => other
  end.

Definition returned {A} (o : Outcome A) : option A :=
  match o with Returns a => Some a | _ => None end.

(** An error handed back to the caller, as opposed to the end of the
    process. *)
Definition reaches_caller {A} (o : Outcome A) : Prop :=
  match o with Exits _ _ => False | _ => True end.

Definition is_thrown {A} (o : Outcome A) : Prop :=
  match o with Throws _ => True | _ => False end.

(* ------------------------------------------------------------------ *)
(** ** Strings *)

Definition dquote : string := String "034"%char EmptyString.
Definition squote : ascii := "'"%char.

(** [sep]-separated concatenation, [Array.prototype.join] *)
Definition join (sep : string) (parts : list string) : string :=
  String.concat sep parts.

Fixpoint contains (needle hay : string) : bool :=
  String.prefix needle hay
  || match hay with
     | EmptyString => false
     | String _ hay' => contains needle hay'
     end.

(* ------------------------------------------------------------------ *)
(** ** The host *)

(** The parts of the JavaScript engine and of the process environment
    that the module uses and the source does not fix: the Number type
    (IEEE doubles in an engine), what [Date.parse] does with a string
    outside the interchange format (implementation-defined by
    ECMA-262), and how [kleur] renders bold text. *)
Class Host := {
  number : Type;
  (** [Number::toString(x, 10)] *)
  Number_toString : number -> string;
  Number_isFinite : number -> bool;
  (** the Number denoted by a JSON numeric token *)
  StringToNumber : string -> option number;
  (** time value for a date string outside the modelled interchange
      format; [None] is NaN *)
  Date_parse_fallback : string -> option Z;
  (** [bold] of [kleur/colors]: the text itself, or the text between
      terminal escape sequences when colours are enabled *)
  bold : string -> string
}.

(* ------------------------------------------------------------------ *)
(** ** Decimal numerals *)

Definition is_digit (c : ascii) : bool :=
  (48 <=? N_of_ascii c)%N && (N_of_ascii c <=? 57)%N.

Definition digit_char (d : Z) : ascii := ascii_of_N (48 + Z.to_N d).

Definition digit_value (c : ascii) : Z := Z.of_N (N_of_ascii c) - 48.

(** The last [width] decimal digits of [n], most significant first. *)
Fixpoint fixed_digits (width : nat) (n : Z) (tail : string) : string :=
  match width with
  | O => tail
  | S w => fixed_digits w (n / 10) (String (digit_char (n mod 10)) tail)
  end.

(** Reads exactly [width] digits; the value read so far is [acc]. *)
Fixpoint read_fixed (width : nat) (input : string) (acc : Z)
  : option (Z * string) :=
  match width with
  | O => Some (acc, input)
  | S w =>
      match input with
      | String c rest =>
          if is_digit c then read_fixed w rest (10 * acc + digit_value c)
          else None
      | EmptyString => None
      end
  end.

(** The decimal numeral of [n >= 0] without leading zeros. *)
Fixpoint natural_digits (fuel : nat) (n : Z) (tail : string) : string :=
  match fuel with
  | O => String (digit_char (n mod 10)) tail
  | S f =>
      if (n <? 10)%Z then String (digit_char n) tail
      else natural_digits f (n / 10) (String (digit_char (n mod 10)) tail)
  end.

Definition integer_numeral (n : Z) : string :=
  if (n <? 0)%Z
  then String "-" (natural_digits (Z.to_nat (Z.log2 (- n))) (- n) "")
  else natural_digits (Z.to_nat (Z.log2 n)) n "".

(** Reads the digits at the head of the input. *)
Fixpoint read_digits (input : string) (acc : Z) : Z * string :=
  match input with
  | String c rest =>
      if is_digit c then read_digits rest (10 * acc + digit_value c)
      else (acc, input)
  | EmptyString => (acc, input)
  end.

Definition read_natural (token : string) : option Z :=
  match token with
  | String c _ =>
      if is_digit c then
        match read_digits token 0 with
        | (n, EmptyString) => Some n
        | _ => None
        end
      else None
  | EmptyString => None
  end.

Definition read_integer (token : string) : option Z :=
  match token with
  | String c rest =>
      if Ascii.eqb c "-" then Z.opp <$> read_natural rest
      else read_natural token
  | EmptyString => None
  end.

(* ------------------------------------------------------------------ *)
(** ** Dates *)

(** A [Date] object holds a time value: a whole number of milliseconds
    since the epoch, at most 8.64e15 in magnitude, or NaN. *)
Inductive Date := ValidDate (t : Z) | InvalidDate.

Module DateAlgorithms.
Local Open Scope Z_scope.

(** ECMA-262, Time Values and Time Range, Day Number, Year Number, Month
    Number, Date Number, Hours Minutes Second and Milliseconds. *)
Definition msPerDay := 86400000.
Definition msPerHour := 3600000.
Definition msPerMinute := 60000.
Definition msPerSecond := 1000.
Definition maxTime := 8640000000000000.

Definition in_time_range (t : Z) : Prop := - maxTime <= t <= maxTime.

Definition TimeClip (t : Z) : Date :=
  if Z.abs t <=? maxTime then ValidDate t else InvalidDate.

Definition Day (t : Z) := t / msPerDay.
Definition TimeWithinDay (t : Z) := t mod msPerDay.

Definition leap_year (y : Z) : bool :=
  (y mod 4 =? 0) && (negb (y mod 100 =? 0) || (y mod 400 =? 0)).

Definition DaysInYear (y : Z) := if leap_year y then 366 else 365.

Definition DayFromYear (y : Z) :=
  365 * (y - 1970) + (y - 1969) / 4 - (y - 1901) / 100 + (y - 1601) / 400.

(** The largest [y] with [DayFromYear y <= Day t]: the mean length of
    a year places it within one year of the estimate. *)
Definition YearFromTime (t : Z) :=
  let y := 1970 + Day t * 400 / 146097 in
  if DayFromYear (y + 1) <=? Day t then y + 1
  else if DayFromYear y <=? Day t then y
  else y - 1.

Definition leap_days (y : Z) := if leap_year y then 1 else 0.
Definition InLeapYear (t : Z) := leap_days (YearFromTime t).
Definition DayWithinYear (t : Z) := Day t - DayFromYear (YearFromTime t).

(** Number of days of the year before month [m] (0 is January). *)
Definition month_start (m leap : Z) : Z :=
  match m with
  | 0 => 0 | 1 => 31 | 2 => 59 + leap | 3 => 90 + leap | 4 => 120 + leap
  | 5 => 151 + leap | 6 => 181 + leap | 7 => 212 + leap | 8 => 243 + leap
  | 9 => 273 + leap | 10 => 304 + leap | 11 => 334 + leap
  | _ => 365 + leap
  end.

Definition MonthFromTime (t : Z) :=
  let d := DayWithinYear t in
  let leap := InLeapYear t in
  if d <? 31 then 0 else if d <? 59 + leap then 1
  else if d <? 90 + leap then 2 else if d <? 120 + leap then 3
  else if d <? 151 + leap then 4 else if d <? 181 + leap then 5
  else if d <? 212 + leap then 6 else if d <? 243 + leap then 7
  else if d <? 273 + leap then 8 else if d <? 304 + leap then 9
  else if d <? 334 + leap then 10 else 11.

Definition DateFromTime (t : Z) :=
  DayWithinYear t - month_start (MonthFromTime t) (InLeapYear t) + 1.

Definition HourFromTime (t : Z) := (t / msPerHour) mod 24.
Definition MinFromTime (t : Z) := (t / msPerMinute) mod 60.
Definition SecFromTime (t : Z) := (t / msPerSecond) mod 60.
Definition msFromTime (t : Z) := t mod msPerSecond.

Definition MakeTime (hour min sec ms : Z) :=
  hour * msPerHour + min * msPerMinute + sec * msPerSecond + ms.

(** [month] is counted from 0 and lies below 12 wherever this is used. *)
Definition MakeDay (year month date : Z) :=
  DayFromYear year + month_start month (leap_days year) + date - 1.

Definition MakeDate (day time : Z) := day * msPerDay + time.

Definition DaysInMonth (month leap : Z) :=
  month_start (month + 1) leap - month_start month leap.

(** [Date.prototype.toISOString]: [YYYY-MM-DDTHH:mm:ss.sssZ], the year
    with a sign and six digits outside 0..9999. *)
Definition year_numeral (y : Z) (tail : string) : string :=
  if (0 <=? y) && (y <=? 9999) then fixed_digits 4 y tail
  else String (if y <? 0 then "-"%char else "+"%char)
              (fixed_digits 6 (Z.abs y) tail).

Definition iso_string (t : Z) : string :=
  year_numeral (YearFromTime t)
    (String "-" (fixed_digits 2 (MonthFromTime t + 1)
    (String "-" (fixed_digits 2 (DateFromTime t)
    (String "T" (fixed_digits 2 (HourFromTime t)
    (String ":" (fixed_digits 2 (MinFromTime t)
    (String ":" (fixed_digits 2 (SecFromTime t)
    (String "." (fixed_digits 3 (msFromTime t) "Z")))))))))))).

Definition toISOString (d : Date) : Outcome string :=
  match d with
  | ValidDate t => Returns (iso_string t)
  | InvalidDate => Throws (RangeError "Invalid time value")
  end.

Definition expect (c : ascii) (input : string) : option string :=
  match input with
  | String c' rest => if Ascii.eqb c c' then Some rest else None
  | EmptyString => None
  end.

Definition read_year (input : string) : option (Z * string) :=
  match input with
  | String c rest =>
      if Ascii.eqb c "+" then read_fixed 6 rest 0
      else if Ascii.eqb c "-" then
        match read_fixed 6 rest 0 with
        | Some (y, rest') => if y =? 0 then None else Some (- y, rest')
        | None => None
        end
      else read_fixed 4 input 0
  | EmptyString => None
  end.

(** The complete UTC form of the Date Time String Format, with every
    field within its bounds; the time value it denotes. *)
Definition parse_iso (input : string) : option Z :=
  '(year, input) ← read_year input;
  input ← expect "-" input;
  '(month, input) ← read_fixed 2 input 0;
  input ← expect "-" input;
  '(date, input) ← read_fixed 2 input 0;
  input ← expect "T" input;
  '(hour, input) ← read_fixed 2 input 0;
  input ← expect ":" input;
  '(min, input) ← read_fixed 2 input 0;
  input ← expect ":" input;
  '(sec, input) ← read_fixed 2 input 0;
  input ← expect "." input;
  '(ms, input) ← read_fixed 3 input 0;
  input ← expect "Z" input;
  if String.eqb input ""
     && (1 <=? month) && (month <=? 12)
     && (1 <=? date) && (date <=? DaysInMonth (month - 1) (leap_days year))
     && (hour <=? 23) && (min <=? 59) && (sec <=? 59)
  then Some (MakeDate (MakeDay year (month - 1) date) (MakeTime hour min sec ms))
  else None.

End DateAlgorithms.

(* ------------------------------------------------------------------ *)
(** ** JavaScript values and [JSON.stringify] *)

Section Values.
Context `{Host}.

(** The values a [json] default or a [json] column can hold, as
    [JSON.stringify] traverses them.  [JAncestor k] is a reference to
    the [k]-th enclosing array or object: a cyclic structure.  The
    properties of an object are listed in enumeration order. *)
#[local] Unset Elimination Schemes.
Inductive JSValue :=
| JNull
| JBool (b : bool)
| JNumber (n : number)
| JString (s : string)
| JArray (elements : list JSValue)
| JObject (properties : list (string * JSValue))
| JAncestor (k : nat).
#[local] Set Elimination Schemes.

Definition hex_digit (n : N) : ascii :=
  if (n <? 10)%N then ascii_of_N (48 + n) else ascii_of_N (87 + n).

(** [\uXXXX] for a code unit, four lower-case hexadecimal digits *)
Definition UnicodeEscape (c : ascii) : string :=
  let n := N_of_ascii c in
  String "\" (String "u" (String "0" (String "0"
    (String (hex_digit (n / 16)) (String (hex_digit (n mod 16)) ""))))).

Definition quote_char (c : ascii) : string :=
  let n := N_of_ascii c in
  if (n =? 8)%N then "\b"
  else if (n =? 9)%N then "\t"
  else if (n =? 10)%N then "\n"
  else if (n =? 12)%N then "\f"
  else if (n =? 13)%N then "\r"
  else if (n =? 34)%N then String "\" dquote
  else if (n =? 92)%N then "\\"
  else if (n <? 32)%N then UnicodeEscape c
  else String c "".

Fixpoint quote_chars (s : string) : string :=
  match s with
  | EmptyString => ""
  | String c s' => quote_char c +:+ quote_chars s'
  end.

(** ECMA-262 QuoteJSONString *)
Definition QuoteJSONString (s : string) : string :=
  dquote +:+ quote_chars s +:+ dquote.

Definition circular : Exception :=
  TypeError "Converting circular structure to JSON".

(** ECMA-262 SerializeJSONProperty, SerializeJSONArray and
    SerializeJSONObject, without replacer and without indentation. *)
Fixpoint SerializeJSONProperty (v : JSValue) : Outcome string :=
  match v with
  | JNull => Returns "null"
  | JBool b => Returns (if b then "true" else "false")
  | JNumber n =>
      Returns (if Number_isFinite n then Number_toString n else "null")
  | JString s => Returns (QuoteJSONString s)
  | JArray elements =>
      do partial <-
        (fix elems (l : list JSValue) : Outcome (list string) :=
           match l with
           | [] => Returns []
           | e :: l' =>
               do strP <- SerializeJSONProperty e;
               do rest <- elems l';
               Returns (strP :: rest)
           end) elements;
      Returns ("[" +:+ join "," partial +:+ "]")
  | JObject properties =>
      do partial <-
        (fix props (l : list (string * JSValue)) : Outcome (list string) :=
           match l with
           | [] => Returns []
           | (P, e) :: l' =>
               do strP <- SerializeJSONProperty e;
               do rest <- props l';
               Returns ((QuoteJSONString P +:+ ":" +:+ strP) :: rest)
           end) properties;
      Returns ("{" +:+ join "," partial +:+ "}")
  | JAncestor _ => Throws circular
  end.

Definition JSON_stringify (value : JSValue) : Outcome string :=
  SerializeJSONProperty value.

(** *** Property order of an object *)

(** An array index: the canonical numeral of an integer below 2^32 - 1.
    Such keys are enumerated first, in ascending order; the other keys
    follow in the order of their creation. *)
Definition array_index (P : string) : option Z :=
  match P with
  | EmptyString => None
  | String c rest =>
      if is_digit c && negb (Ascii.eqb c "0" && negb (String.eqb rest ""))
      then match read_digits P 0 with
           | (i, EmptyString) => if (i <=? 4294967294)%Z then Some i else None
           | _ => None
           end
      else None
  end.

Definition enumerated_before (P Q : string) : Prop :=
  match array_index P, array_index Q with
  | Some i, Some j => (i < j)%Z
  | Some _, None => True
  | None, Some _ => False
  | None, None => P <> Q
  end.

Fixpoint enumeration_order (keys : list string) : Prop :=
  match keys with
  | [] => True
  | P :: keys' => Forall (enumerated_before P) keys' /\ enumeration_order keys'
  end.

Fixpoint has_property (O : list (string * JSValue)) (P : string) : bool :=
  match O with
  | [] => false
  | (Q, _) :: O' => String.eqb Q P || has_property O' P
  end.

Fixpoint set_existing (O : list (string * JSValue)) (P : string) (V : JSValue)
  : list (string * JSValue) :=
  match O with
  | [] => []
  | (Q, W) :: O' =>
      if String.eqb Q P then (Q, V) :: O' else (Q, W) :: set_existing O' P V
  end.

Fixpoint insert_index (O : list (string * JSValue)) (i : Z) (P : string)
    (V : JSValue) : list (string * JSValue) :=
  match O with
  | [] => [(P, V)]
  | (Q, W) :: O' =>
      match array_index Q with
      | Some j =>
          if (j <? i)%Z then (Q, W) :: insert_index O' i P V
          else (P, V) :: O
      | None => (P, V) :: O
      end
  end.

(** ECMA-262 CreateDataProperty on an ordinary object. *)
Definition CreateDataProperty (O : list (string * JSValue)) (P : string)
    (V : JSValue) : list (string * JSValue) :=
  if has_property O P then set_existing O P V
  else match array_index P with
       | Some i => insert_index O i P V
       | None => O ++ [(P, V)]
       end.

(** *** [JSON.parse] *)

Definition is_whitespace (c : ascii) : bool :=
  let n := N_of_ascii c in
  (n =? 32)%N || (n =? 9)%N || (n =? 10)%N || (n =? 13)%N.

Fixpoint skip_whitespace (input : string) : string :=
  match input with
  | String c rest => if is_whitespace c then skip_whitespace rest else input
  | EmptyString => input
  end.

Definition hex_value (c : ascii) : option N :=
  let n := N_of_ascii c in
  if (48 <=? n)%N && (n <=? 57)%N then Some (n - 48)%N
  else if (97 <=? n)%N && (n <=? 102)%N then Some (n - 87)%N
  else if (65 <=? n)%N && (n <=? 70)%N then Some (n - 55)%N
  else None.

(** The code unit of [\uXXXX]; one of 256 or more has no image among
    the strings of this embedding and is rejected. *)
Definition escaped_unit (h1 h2 h3 h4 : ascii) : option ascii :=
  a ← hex_value h1; b ← hex_value h2; c ← hex_value h3; d ← hex_value h4;
  if (a =? 0)%N && (b =? 0)%N then Some (ascii_of_N (16 * c + d)) else None.

(** The characters of a string token after its opening quote, up to
    the closing quote; the string denoted and the input that follows. *)
Fixpoint read_string_token (input : string) : option (string * string) :=
  match input with
  | EmptyString => None
  | String c rest =>
      if (N_of_ascii c =? 34)%N then Some ("", rest)
      else if (N_of_ascii c =? 92)%N then
        match rest with
        | String e rest' =>
            let simple (unit : N) :=
              '(s, remaining) ← read_string_token rest';
              Some (String (ascii_of_N unit) s, remaining) in
            if (N_of_ascii e =? 34)%N then simple 34%N
            else if (N_of_ascii e =? 92)%N then simple 92%N
            else if Ascii.eqb e "/" then simple 47%N
            else if Ascii.eqb e "b" then simple 8%N
            else if Ascii.eqb e "f" then simple 12%N
            else if Ascii.eqb e "n" then simple 10%N
            else if Ascii.eqb e "r" then simple 13%N
            else if Ascii.eqb e "t" then simple 9%N
            else if Ascii.eqb e "u" then
              match rest' with
              | String h1 (String h2 (String h3 (String h4 rest''))) =>
                  unit ← escaped_unit h1 h2 h3 h4;
                  '(s, remaining) ← read_string_token rest'';
                  Some (String unit s, remaining)
              | _ => None
              end
            else None
        | EmptyString => None
        end
      else if (N_of_ascii c <? 32)%N then None
      else
        '(s, remaining) ← read_string_token rest;
        Some (String c s, remaining)
  end.

Definition is_number_char (c : ascii) : bool :=
  is_digit c || Ascii.eqb c "-" || Ascii.eqb c "+" || Ascii.eqb c "."
  || Ascii.eqb c "e" || Ascii.eqb c "E".

(** The longest prefix of number characters and what follows it. *)
Fixpoint read_number_token (input : string) : string * string :=
  match input with
  | String c rest =>
      if is_number_char c
      then let '(token, remaining) := read_number_token rest in
           (String c token, remaining)
      else ("", input)
  | EmptyString => ("", "")
  end.

Fixpoint skip_digits (input : string) : string :=
  match input with
  | String c rest => if is_digit c then skip_digits rest else input
  | EmptyString => input
  end.

Definition starts_with_digit (input : string) : bool :=
  match input with String c _ => is_digit c | EmptyString => false end.

(** The JSON grammar of numbers: an optional minus sign; then a zero,
    or a digit other than zero followed by any digits; then optionally
    a point and at least one digit; then optionally [e] or [E], an
    optional sign and at least one digit. *)
Definition json_exponent (input : string) : bool :=
  match input with
  | EmptyString => true
  | String c rest =>
      if Ascii.eqb c "e" || Ascii.eqb c "E" then
        let rest :=
          match rest with
          | String s rest' =>
              if Ascii.eqb s "+" || Ascii.eqb s "-" then rest' else rest
          | EmptyString => rest
          end in
        starts_with_digit rest && String.eqb (skip_digits rest) ""
      else false
  end.

Definition json_fraction (input : string) : bool :=
  match input with
  | String c rest =>
      if Ascii.eqb c "."
      then starts_with_digit rest && json_exponent (skip_digits rest)
      else json_exponent input
  | EmptyString => true
  end.

Definition json_integer (input : string) : bool :=
  match input with
  | String c rest =>
      if Ascii.eqb c "0" then json_fraction rest
      else is_digit c && json_fraction (skip_digits rest)
  | EmptyString => false
  end.

Definition is_json_number (token : string) : bool :=
  match token with
  | String c rest =>
      if Ascii.eqb c "-" then json_integer rest else json_integer token
  | EmptyString => false
  end.

Fixpoint strip_prefix (word input : string) : option string :=
  match word with
  | EmptyString => Some input
  | String c word' =>
      match input with
      | String c' input' =>
          if Ascii.eqb c c' then strip_prefix word' input' else None
      | EmptyString => None
      end
  end.

Definition read_keyword (word : string) (v : JSValue) (input : string)
  : option (JSValue * string) :=
  remaining ← strip_prefix word input; Some (v, remaining).

(** The value at the head of the input and the input after it;
    [parse_elements] reads the elements of an array after the first
    bracket or a comma and [parse_members] the members of an object,
    both with what they have read so far.  Every call on a nested
    value, a further element or a further member takes one unit of
    [fuel]. *)
Fixpoint parse_value (fuel : nat) (input : string)
  : option (JSValue * string) :=
  match fuel with
  | O => None
  | S fuel =>
      match skip_whitespace input with
      | EmptyString => None
      | String c rest =>
          if Ascii.eqb c "n" then read_keyword "null" JNull (String c rest)
          else if Ascii.eqb c "t"
          then read_keyword "true" (JBool true) (String c rest)
          else if Ascii.eqb c "f"
          then read_keyword "false" (JBool false) (String c rest)
          else if (N_of_ascii c =? 34)%N then
            '(s, remaining) ← read_string_token rest;
            Some (JString s, remaining)
          else if Ascii.eqb c "[" then
            match skip_whitespace rest with
            | String c' remaining =>
                if Ascii.eqb c' "]" then Some (JArray [], remaining)
                else parse_elements fuel rest []
            | EmptyString => None
            end
          else if Ascii.eqb c "{" then
            match skip_whitespace rest with
            | String c' remaining =>
                if Ascii.eqb c' "}" then Some (JObject [], remaining)
                else parse_members fuel rest []
            | EmptyString => None
            end
          else if is_digit c || Ascii.eqb c "-" then
            let '(token, remaining) := read_number_token (String c rest) in
            if is_json_number token
            then n ← StringToNumber token; Some (JNumber n, remaining)
            else None
          else None
      end
  end
with parse_elements (fuel : nat) (input : string) (elements : list JSValue)
  : option (JSValue * string) :=
  match fuel with
  | O => None
  | S fuel =>
      '(v, input) ← parse_value fuel input;
      match skip_whitespace input with
      | String c input =>
          if Ascii.eqb c "," then parse_elements fuel input (elements ++ [v])
          else if Ascii.eqb c "]" then Some (JArray (elements ++ [v]), input)
          else None
      | EmptyString => None
      end
  end
with parse_members (fuel : nat) (input : string)
    (object : list (string * JSValue)) : option (JSValue * string) :=
  match fuel with
  | O => None
  | S fuel =>
      match skip_whitespace input with
      | String c input =>
          if (N_of_ascii c =? 34)%N then
            '(P, input) ← read_string_token input;
            match skip_whitespace input with
            | String c input =>
                if Ascii.eqb c ":" then
                  '(v, input) ← parse_value fuel input;
                  let object := CreateDataProperty object P v in
                  match skip_whitespace input with
                  | String c input =>
                      if Ascii.eqb c "," then parse_members fuel input object
                      else if Ascii.eqb c "}" then Some (JObject object, input)
                      else None
                  | EmptyString => None
                  end
                else None
            | EmptyString => None
            end
          else None
      | EmptyString => None
      end
  end.

Definition unexpected : Exception := SyntaxError "Unexpected token in JSON".

(** [JSON.parse(text)], without reviver.  The fuel is one more than
    the length of the text; [JSON_parse_text] shows that it suffices
    for the text of every supported value. *)
Definition JSON_parse (text : string) : Outcome JSValue :=
  match parse_value (S (String.length text)) text with
  | Some (v, remaining) =>
      if String.eqb (skip_whitespace remaining) "" then Returns v
      else Throws unexpected
  | None => Throws unexpected
  end.

End Values.

(* ------------------------------------------------------------------ *)
(** ** The SQL dialect *)

(** [const sqlite = new SQLiteAsyncDialect()]: the two methods of
    drizzle-orm's SQLite dialect that the module calls. *)
Module sqlite.

(** [escapeName(name)] is [`"${name}"`] *)
Definition escapeName (name : string) : string :=
  dquote +:+ name +:+ dquote.

(** [str.replace(/'/g, "''")] *)
Fixpoint double_quotes (str : string) : string :=
  match str with
  | EmptyString => ""
  | String c str' =>
      if Ascii.eqb c squote
      then String squote (String squote (double_quotes str'))
      else String c (double_quotes str')
  end.

(** [escapeString(str)] is [`'${str.replace(/'/g, "''")}'`] *)
Definition escapeString (str : string) : string :=
  String squote (double_quotes str +:+ String squote "").

End sqlite.

(** How an SQL lexer reads a string literal at the head of its input:
    the opening quote, then characters up to the first quote that is
    not doubled; a doubled quote stands for one quote.  It returns the
    text the literal denotes and the input left after it. *)
Fixpoint read_literal_body (input : string) : option (string * string) :=
  match input with
  | EmptyString => None
  | String c rest =>
      if Ascii.eqb c squote then
        match rest with
        | String c' rest' =>
            if Ascii.eqb c' squote then
              match read_literal_body rest' with
              | Some (lit, remaining) => Some (String squote lit, remaining)
              | None => None
              end
            else Some ("", rest)
        | EmptyString => Some ("", "")
        end
      else
        match read_literal_body rest with
        | Some (lit, remaining) => Some (String c lit, remaining)
        | None => None
        end
  end.

Definition read_string_literal (input : string) : option (string * string) :=
  match input with
  | String c rest => if Ascii.eqb c squote then read_literal_body rest else None
  | EmptyString => None
  end.

(* ------------------------------------------------------------------ *)
(** ** Fields and collections *)

(** ['text' | 'number' | 'boolean' | 'date' | 'json'] *)
Inductive FieldType :=
  text_type | number_type | boolean_type | date_type | json_type.

Section Compiler.
Context `{Host}.

(** The five field kinds of [DBField]; each carries the [default] its
    TypeScript type allows, [None] standing for [undefined]. *)
Inductive FieldKind :=
| TextField (default : option string)
| NumberField (default : option number)
| BooleanField (default : option bool)
| DateField (default : option string)
| JsonField (default : option JSValue).

(** [optional] and [unique] are tested for truthiness only; [false]
    also stands for an absent property. *)
Record DBField := {
  optional : bool;
  unique : bool;
  kind : FieldKind
}.

Definition field (o u : bool) (k : FieldKind) : DBField :=
  {| optional := o; unique := u; kind := k |}.

Definition type (field : DBField) : FieldType :=
  match kind field with
  | TextField _ => text_type
  | NumberField _ => number_type
  | BooleanField _ => boolean_type
  | DateField _ => date_type
  | JsonField _ => json_type
  end.

Record DBCollection := { fields : list (string * DBField) }.

Definition DBCollections := list (string * DBCollection).

(** [DBFieldWithDefault]: a field narrowed to its kind, with the
    default that is known to be defined. *)
Inductive DBFieldWithDefault :=
| TextDefault (default : string)
| NumberDefault (default : number)
| BooleanDefault (default : bool)
| DateDefault (default : string)
| JsonDefault (default : JSValue).

(** The type guard [hasDefault]: [field.default !== undefined], with
    the narrowed field when it holds. *)
Definition hasDefault (field : DBField) : option DBFieldWithDefault :=
  match kind field with
  | TextField d => TextDefault <$> d
  | NumberField d => NumberDefault <$> d
  | BooleanField d => BooleanDefault <$> d
  | DateField d => DateDefault <$> d
  | JsonField d => JsonDefault <$> d
  end.

Definition hasRuntimeDefault (field : DBField) : bool :=
  match kind field with
  | DateField (Some d) => String.eqb d "now"
  | _ => false
  end.

(* ------------------------------------------------------------------ *)
(** ** DDL generation *)

Definition schemaTypeToSqlType (t : FieldType) : string :=
  match t with
  | date_type | text_type | json_type => "text"
  | number_type | boolean_type => "integer"
  end.

(** The line printed by [console.info] before [process.exit(0)]. *)
Definition invalid_default_message (columnName : string) : string :=
  "Invalid default value for column " +:+ bold columnName
  +:+ ". Defaults must be valid JSON when using the `json()` type.".

Definition getDefaultValueSql (columnName : string)
    (column : DBFieldWithDefault) : Outcome string :=
  match column with
  | BooleanDefault default => Returns (if default then "TRUE" else "FALSE")
  | NumberDefault default => Returns (Number_toString default)
  | TextDefault default => Returns (sqlite.escapeString default)
  | DateDefault default =>
      Returns (if String.eqb default "now" then "CURRENT_TIMESTAMP"
               else sqlite.escapeString default)
  | JsonDefault default =>
      do stringified <-
        try_catch (JSON_stringify default)
          (fun e => Exits 0 [invalid_default_message columnName]);
      Returns (sqlite.escapeString stringified)
  end.

Definition getModifiers (columnName : string) (column : DBField)
  : Outcome string :=
  let modifiers := "" in
  let modifiers :=
    if negb (optional column) then modifiers +:+ " NOT NULL" else modifiers in
  let modifiers :=
    if unique column then modifiers +:+ " UNIQUE" else modifiers in
  match hasDefault column with
  | Some narrowed =>
      do literal <- getDefaultValueSql columnName narrowed;
      Returns (modifiers +:+ " DEFAULT " +:+ literal)
  | None => Returns modifiers
  end.

Definition id_clause : string := sqlite.escapeName "id" +:+ " text PRIMARY KEY".

(** The loop of [getCreateTableQuery]: one [colQueries.push] per entry
    of [Object.entries(collection.fields)]. *)
Fixpoint pushColQueries (entries : list (string * DBField))
    (colQueries : list string) : Outcome (list string) :=
  match entries with
  | [] => Returns colQueries
  | (columnName, column) :: entries' =>
      do modifiers <- getModifiers columnName column;
      let colQuery :=
        sqlite.escapeName columnName +:+ " "
        +:+ schemaTypeToSqlType (type column) +:+ modifiers in
      pushColQueries entries' (colQueries ++ [colQuery])
  end.

Definition getCreateTableQuery (collectionName : string)
    (collection : DBCollection) : Outcome string :=
  let query := "CREATE TABLE " +:+ sqlite.escapeName collectionName +:+ " (" in
  let colQueries := [id_clause] in
  do colQueries <- pushColQueries (fields collection) colQueries;
  Returns (query +:+ join ", " colQueries +:+ ")").

(** [sql.raw(text)] *)
Inductive SQL := sql_raw (text : string).

(** The first loop of [createDbTables]: a drop and a create statement
    per collection. *)
Fixpoint pushSetupQueries (entries : DBCollections) (setupQueries : list SQL)
  : Outcome (list SQL) :=
  match entries with
  | [] => Returns setupQueries
  | (name, collection) :: entries' =>
      let dropQuery := sql_raw ("DROP TABLE IF EXISTS " +:+ name) in
      do createText <- getCreateTableQuery name collection;
      let createQuery := sql_raw createText in
      pushSetupQueries entries' (setupQueries ++ [dropQuery; createQuery])
  end.

(** [createDbTables(db, collections)]; the database is the list of the
    statements it has been asked to run. *)
Definition createDbTables (db : list SQL) (collections : DBCollections)
  : Outcome (list SQL) :=
  do setupQueries <- pushSetupQueries collections [];
  Returns (fold_left (fun db q => db ++ [q]) setupQueries db).

(* ------------------------------------------------------------------ *)
(** ** Identifiers *)

(** The bytes the system generator delivers to [nanoid], by position,
    and the position of the next unused one. *)
Record Random := { bytes : nat -> N; poolOffset : nat }.

Definition urlAlphabet : string :=
  "useandom-26T198340PX75pxJACKVERYMINDBUSHWOLF_GQZbfghjklqvwyzrict".

Definition alphabet_char (byte : N) : ascii :=
  match String.get (N.to_nat (N.land byte 63)) urlAlphabet with
  | Some c => c
  | None => "u"%char
  end.

(** [nanoid(size)]: one character of [urlAlphabet] per random byte,
    selected by the low six bits. *)
Fixpoint nanoid_chars (size : nat) (bytes : nat -> N) (i : nat) : string :=
  match size with
  | O => ""
  | S size' => String (alphabet_char (bytes i)) (nanoid_chars size' bytes (S i))
  end.

Definition nanoid (size : nat) (r : Random) : string * Random :=
  (nanoid_chars size (bytes r) (poolOffset r),
   {| bytes := bytes r; poolOffset := poolOffset r + size |}).

Definition generateId (r : Random) : string * Random := nanoid 12 r.

(* ------------------------------------------------------------------ *)
(** ** Column builders *)

Definition Date_parse (text : string) : option Z :=
  match DateAlgorithms.parse_iso text with
  | Some t => Some t
  | None => Date_parse_fallback text
  end.

(** [new Date(text)] *)
Definition new_Date (text : string) : Date :=
  match Date_parse text with
  | Some t => DateAlgorithms.TimeClip t
  | None => InvalidDate
  end.

(** [z.coerce.date().parse(input)]: [new Date(input)], refused when
    its time value is NaN. *)
Definition z_coerce_date_parse (input : string) : Outcome Date :=
  match new_Date input with
  | ValidDate t => Returns (ValidDate t)
  | InvalidDate => Throws (ZodError "Invalid date")
  end.

(** The parameters of a drizzle [customType]. *)
Record CustomTypeParams (data : Type) := {
  dataType : string;
  toDriver : data -> Outcome string;
  fromDriver : string -> Outcome data
}.
Arguments dataType {data}.
Arguments toDriver {data}.
Arguments fromDriver {data}.

Definition dateType_params : CustomTypeParams Date := {|
  dataType := "text";
  toDriver := fun value => DateAlgorithms.toISOString value;
  fromDriver := fun value => Returns (new_Date value)
|}.

Definition jsonType_params : CustomTypeParams JSValue := {|
  dataType := "text";
  toDriver := fun value => JSON_stringify value;
  fromDriver := fun value => JSON_parse value
|}.

Inductive CustomType := DateCodec | JsonCodec.

Inductive ColumnType :=
| SQLiteText
| SQLiteInteger
| SQLiteBoolean
| SQLiteCustomColumn (codec : CustomType).

(** The SQL type of the column, [getSQLType()]. *)
Definition getSQLType (t : ColumnType) : string :=
  match t with
  | SQLiteText => "text"
  | SQLiteInteger | SQLiteBoolean => "integer"
  | SQLiteCustomColumn DateCodec => dataType dateType_params
  | SQLiteCustomColumn JsonCodec => dataType jsonType_params
  end.

(** What [.default(...)] may receive here; [DefaultSql] is a
    [sql`...`] fragment, evaluated by the database. *)
Inductive ColumnDefault :=
| DefaultString (s : string)
| DefaultNumber (n : number)
| DefaultBoolean (b : bool)
| DefaultJson (v : JSValue)
| DefaultDate (d : Date)
| DefaultSql (fragment : string).

(** The [config] of a drizzle column builder. *)
Record ColumnBuilder := {
  config_name : string;
  config_columnType : ColumnType;
  config_notNull : bool;
  config_hasDefault : bool;
  config_default : option ColumnDefault;
  config_defaultFn : option (Random -> string * Random);
  config_primaryKey : bool;
  config_isUnique : bool
}.

Definition new_builder (name : string) (t : ColumnType) : ColumnBuilder := {|
  config_name := name; config_columnType := t; config_notNull := false;
  config_hasDefault := false; config_default := None;
  config_defaultFn := None; config_primaryKey := false;
  config_isUnique := false
|}.

Definition text (name : string) := new_builder name SQLiteText.
Definition integer (name : string) := new_builder name SQLiteInteger.
(** [integer(name, { mode: 'boolean' })] *)
Definition integer_boolean (name : string) := new_builder name SQLiteBoolean.
Definition dateType (name : string) :=
  new_builder name (SQLiteCustomColumn DateCodec).
Definition jsonType (name : string) :=
  new_builder name (SQLiteCustomColumn JsonCodec).

(** [c.default(value)] *)
Definition set_default (value : ColumnDefault) (c : ColumnBuilder)
  : ColumnBuilder :=
  {| config_name := config_name c; config_columnType := config_columnType c;
     config_notNull := config_notNull c; config_hasDefault := true;
     config_default := Some value; config_defaultFn := config_defaultFn c;
     config_primaryKey := config_primaryKey c;
     config_isUnique := config_isUnique c |}.

(** [c.$default(fn)]: [fn] is called when a row is inserted without a
    value for the column. *)
Definition set_defaultFn (fn : Random -> string * Random) (c : ColumnBuilder)
  : ColumnBuilder :=
  {| config_name := config_name c; config_columnType := config_columnType c;
     config_notNull := config_notNull c; config_hasDefault := true;
     config_default := config_default c; config_defaultFn := Some fn;
     config_primaryKey := config_primaryKey c;
     config_isUnique := config_isUnique c |}.

(** [c.notNull()] *)
Definition set_notNull (c : ColumnBuilder) : ColumnBuilder :=
  {| config_name := config_name c; config_columnType := config_columnType c;
     config_notNull := true; config_hasDefault := config_hasDefault c;
     config_default := config_default c; config_defaultFn := config_defaultFn c;
     config_primaryKey := config_primaryKey c;
     config_isUnique := config_isUnique c |}.

(** [c.unique()] *)
Definition set_unique (c : ColumnBuilder) : ColumnBuilder :=
  {| config_name := config_name c; config_columnType := config_columnType c;
     config_notNull := config_notNull c; config_hasDefault := config_hasDefault c;
     config_default := config_default c; config_defaultFn := config_defaultFn c;
     config_primaryKey := config_primaryKey c; config_isUnique := true |}.

(** [c.primaryKey()] also makes the column not null. *)
Definition set_primaryKey (c : ColumnBuilder) : ColumnBuilder :=
  {| config_name := config_name c; config_columnType := config_columnType c;
     config_notNull := true; config_hasDefault := config_hasDefault c;
     config_default := config_default c; config_defaultFn := config_defaultFn c;
     config_primaryKey := true; config_isUnique := config_isUnique c |}.

(** The value stored for the column by an insert: the one supplied,
    else the result of the insert-time default function. *)
Definition value_on_insert (c : ColumnBuilder) (supplied : option string)
    (r : Random) : option string * Random :=
  match supplied with
  | Some v => (Some v, r)
  | None =>
      match config_defaultFn c with
      | Some fn => let '(v, r') := fn r in (Some v, r')
      | None => (None, r)
      end
  end.

(* ------------------------------------------------------------------ *)
(** ** The column model *)

Definition with_default {A} (d : option A) (wrap : A -> ColumnDefault)
    (c : ColumnBuilder) : ColumnBuilder :=
  match d with
  | Some value => set_default (wrap value) c
  | None => c
  end.

Definition columnMapper (fieldName : string) (field : DBField)
    (isJsonSerializable : bool) : Outcome ColumnBuilder :=
  do c <-
    match kind field with
    | TextField d => Returns (with_default d DefaultString (text fieldName))
    | NumberField d => Returns (with_default d DefaultNumber (integer fieldName))
    | BooleanField d =>
        Returns (with_default d DefaultBoolean (integer_boolean fieldName))
    | JsonField d => Returns (with_default d DefaultJson (jsonType fieldName))
    | DateField d =>
        if isJsonSerializable then
          let c := text fieldName in
          match d with
          | Some value =>
              Returns (set_default (if String.eqb value "now"
                                    then DefaultSql "CURRENT_TIMESTAMP"
                                    else DefaultString value) c)
          | None => Returns c
          end
        else
          let c := dateType fieldName in
          match d with
          | Some value =>
              if String.eqb value "now"
              then Returns (set_default (DefaultSql "CURRENT_TIMESTAMP") c)
              else do parsed <- z_coerce_date_parse value;
                   Returns (set_default (DefaultDate parsed) c)
          | None => Returns c
          end
    end;
  let c := if negb (optional field) then set_notNull c else c in
  let c := if unique field then set_unique c else c in
  Returns c.

(** Objects whose properties are column builders, by address. *)
Definition Store := gmap nat (gmap string ColumnBuilder).

(** The address of the module-level [initialColumns], and the store
    once the module is loaded. *)
Definition initialColumns : nat := 0.

Definition id_column : ColumnBuilder :=
  set_defaultFn (fun r => generateId r) (set_primaryKey (text "id")).

Definition initial_record : gmap string ColumnBuilder := {[ "id" := id_column ]}.

Definition module_store : Store := {[ initialColumns := initial_record ]}.

(** [object[key] = value] *)
Definition set_property (object : nat) (key : string) (value : ColumnBuilder)
    (σ : Store) : Store :=
  match σ !! object with
  | Some properties => <[object := <[key := value]> properties]> σ
  | None => σ
  end.

(** [{ ...source }]: a new object with the properties of [source]. *)
Definition spread (source : nat) (σ : Store) : nat * Store :=
  let object := fresh (dom σ) in
  (object, <[object := default ∅ (σ !! source)]> σ).

Record SQLiteTable := {
  tableName : string;
  tableColumns : gmap string ColumnBuilder
}.

(** [sqliteTable(name, columns)] reads the properties of [columns]. *)
Definition sqliteTable (name : string) (columns : nat) (σ : Store)
  : SQLiteTable :=
  {| tableName := name; tableColumns := default ∅ (σ !! columns) |}.

(** The loop of [collectionToTable]. *)
Fixpoint assignColumns (entries : list (string * DBField)) (columns : nat)
    (isJsonSerializable : bool) (σ : Store) : Outcome unit * Store :=
  match entries with
  | [] => (Returns tt, σ)
  | (fieldName, field) :: entries' =>
      match columnMapper fieldName field isJsonSerializable with
      | Returns c =>
          assignColumns entries' columns isJsonSerializable
            (set_property columns fieldName c σ)
      | Throws e => (Throws e, σ)
      | Exits code console => (Exits code console, σ)
      end
  end.

Definition collectionToTable (name : string) (collection : DBCollection)
    (isJsonSerializable : bool) (σ : Store) : Outcome SQLiteTable * Store :=
  let '(columns, σ) := spread initialColumns σ in
  match assignColumns (fields collection) columns isJsonSerializable σ with
  | (Returns _, σ) => (Returns (sqliteTable name columns σ), σ)
  | (Throws e, σ) => (Throws e, σ)
  | (Exits code console, σ) => (Exits code console, σ)
  end.

End Compiler.

Arguments dataType {data}.
Arguments toDriver {data}.
Arguments fromDriver {data}.

(* ------------------------------------------------------------------ *)
(** ** A host whose Numbers are the integers *)

(** Numbers are integers, printed as decimal numerals ([Number::toString]
    of an integral Number below 10^21 in magnitude); a numeric token with
    a fraction or an exponent denotes no Number of this host.  Dates
    outside the interchange format are invalid and [bold] leaves its
    text alone, as [kleur] does when colours are off. *)
#[export] Instance integer_host : Host := {|
  number := Z;
  Number_toString := integer_numeral;
  Number_isFinite := fun _ => true;
  StringToNumber := read_integer;
  Date_parse_fallback := fun _ => None;
  bold := fun s => s
|}.

(** A host with one more Number, NaN ([None]): it is not finite and
    no numeric token denotes it. *)
Definition nan_host : Host := {|
  number := option Z;
  Number_toString :=
    fun n => match n with Some z => integer_numeral z | None => "NaN" end;
  Number_isFinite := fun n => match n with Some _ => true | None => false end;
  StringToNumber := fun token => Some <$> read_integer token;
  Date_parse_fallback := fun _ => None;
  bold := fun s => s
|}.

(* ------------------------------------------------------------------ *)
(** ** Sample schemas *)

Definition quoted (s : string) : string := dquote +:+ s +:+ dquote.

(** [{ title: text required, views: number with default 0,
       published: boolean optional, createdAt: date with default "now" }] *)
Definition posts : DBCollection := {|
  fields := [
    ("title", field false false (TextField None));
    ("views", field false false (NumberField (Some 0%Z)));
    ("published", field true false (BooleanField None));
    ("createdAt", field false false (DateField (Some "now")))
  ]
|}.

Definition posts_statement : string :=
  "CREATE TABLE " +:+ quoted "posts" +:+ " ("
  +:+ quoted "id" +:+ " text PRIMARY KEY, "
  +:+ quoted "title" +:+ " text NOT NULL, "
  +:+ quoted "views" +:+ " integer NOT NULL DEFAULT 0, "
  +:+ quoted "published" +:+ " integer, "
  +:+ quoted "createdAt" +:+ " text NOT NULL DEFAULT CURRENT_TIMESTAMP)".

(** [const data = {}; data.self = data] as the default of a [json]
    field. *)
Definition cyclic_value : JSValue := JObject [("self", JAncestor 0)].

Definition cyclic_collection : DBCollection := {|
  fields := [
    ("title", field false false (TextField None));
    ("data", field true false (JsonField (Some cyclic_value)))
  ]
|}.

(** A value of every JSON kind; its string holds a quote, a backslash,
    a tab and a line feed. *)
Definition sample_value : JSValue :=
  JObject [
    ("0", JNull);
    ("10", JArray [JBool true; JBool false; JNumber (-42)%Z; JArray []]);
    ("title", JString ("it's a \ and" +:+ String "009" (String "010" "more")));
    ("nested", JObject [("n", JNumber 1700000000123%Z)])
  ].

(** An array with a NaN, in the host that has one. *)
Definition nan_value : @JSValue nan_host :=
  @JArray nan_host
    [@JNumber nan_host None; @JNumber nan_host (Some 7%Z);
     @JString nan_host "NaN"].

(** A collection with a field that takes the name of the implicit
    column. *)
Definition id_collection : DBCollection := {|
  fields := [
    ("id", field true false (NumberField None));
    ("title", field false false (TextField None))
  ]
|}.

(** Two collections, and two whose second cannot be compiled. *)
Definition blog_collections : DBCollections :=
  [("posts", posts); ("tags", {| fields := [] |})].

Definition failing_collections : DBCollections :=
  [("posts", posts); ("broken", cyclic_collection)].

(** A collection named by a reserved word. *)
Definition order_collections : DBCollections :=
  [("order", {| fields := [("total", field false false (NumberField None))] |})].

(* ------------------------------------------------------------------ *)
(** ** Vocabulary of the properties *)

Section Vocabulary.
Context `{Host}.

(** No reference to an enclosing array or object. *)
Fixpoint acyclic (v : JSValue) : bool :=
  match v with
  | JArray elements => forallb acyclic elements
  | JObject properties => forallb (fun kv => acyclic kv.2) properties
  | JAncestor _ => false
  | _ => true
  end.

(** The JSON text of an acyclic value. *)
Fixpoint json_text (v : JSValue) : string :=
  match v with
  | JNull => "null"
  | JBool b => if b then "true" else "false"
  | JNumber n => if Number_isFinite n then Number_toString n else "null"
  | JString s => QuoteJSONString s
  | JArray elements => "[" +:+ join "," (map json_text elements) +:+ "]"
  | JObject properties =>
      "{" +:+ join ","
               (map (fun kv => QuoteJSONString kv.1 +:+ ":" +:+ json_text kv.2)
                    properties)
      +:+ "}"
  | JAncestor _ => ""
  end.

(** A Number that its decimal rendering denotes again: finite, and
    not the negative zero of an engine. *)
Definition number_roundtrips (n : number) : Prop :=
  Number_isFinite n = true
  /\ is_json_number (Number_toString n) = true
  /\ StringToNumber (Number_toString n) = Some n.

(** The values of the JSON kinds: no cycle, every Number one that
    round-trips, and the keys of every object in enumeration order (as
    those of every JavaScript object are). *)
Fixpoint supported (v : JSValue) : Prop :=
  match v with
  | JNull | JBool _ | JString _ => True
  | JNumber n => number_roundtrips n
  | JArray elements =>
      (fix all (l : list JSValue) : Prop :=
         match l with
         | [] => True
         | e :: l' => supported e /\ all l'
         end) elements
  | JObject properties =>
      enumeration_order (map fst properties)
      /\ (fix all (l : list (string * JSValue)) : Prop :=
            match l with
            | [] => True
            | kv :: l' => supported kv.2 /\ all l'
            end) properties
  | JAncestor _ => False
  end.

(** Fuel that suffices to parse the text of a value. *)
Fixpoint fuel_needed (v : JSValue) : nat :=
  match v with
  | JArray elements =>
      S (list_sum (map (fun e => S (fuel_needed e)) elements))
  | JObject properties =>
      S (list_sum (map (fun kv => S (fuel_needed kv.2)) properties))
  | _ => 1
  end.

Fixpoint number_chars (s : string) : bool :=
  match s with
  | String c s' => is_number_char c && number_chars s'
  | EmptyString => true
  end.

(** What may follow a value in a text: no character of a number. *)
Definition delimited (rest : string) : bool :=
  match rest with
  | String c _ => negb (is_number_char c)
  | EmptyString => true
  end.

(** Parsing the text of [v], followed by [rest], gives [v] and leaves
    [rest]. *)
Definition reads_back (v : JSValue) : Prop :=
  forall fuel rest,
    fuel_needed v <= fuel -> delimited rest = true ->
    parse_value fuel (json_text v +:+ rest) = Some (v, rest).

(** The characters a JSON value starts with. *)
Definition value_start (c : ascii) : bool :=
  is_digit c || Ascii.eqb c "-" || Ascii.eqb c "n" || Ascii.eqb c "t"
  || Ascii.eqb c "f" || (N_of_ascii c =? 34)%N || Ascii.eqb c "["
  || Ascii.eqb c "{".

Definition member_text (kv : string * JSValue) : string :=
  QuoteJSONString kv.1 +:+ ":" +:+ json_text kv.2.

(** A field whose [json] default [JSON.stringify] refuses. *)
Definition unserializable (column : DBField) : bool :=
  match kind column with
  | JsonField (Some v) => negb (acyclic v)
  | _ => false
  end.

(** The first entry with an unserializable default, if any. *)
Fixpoint first_unserializable (entries : list (string * DBField))
  : option string :=
  match entries with
  | [] => None
  | (columnName, column) :: entries' =>
      if unserializable column then Some columnName
      else first_unserializable entries'
  end.

Definition not_null_modifier (column : DBField) : string :=
  if optional column then "" else " NOT NULL".

Definition unique_modifier (column : DBField) : string :=
  if unique column then " UNIQUE" else "".

(** A column clause: the escaped name, the physical type, then the
    modifiers. *)
Definition column_clause (columnName : string) (column : DBField)
    (modifiers : string) : string :=
  sqlite.escapeName columnName +:+ " "
  +:+ schemaTypeToSqlType (type column) +:+ modifiers.

Definition create_table (collectionName : string) (clauses : list string)
  : string :=
  "CREATE TABLE " +:+ sqlite.escapeName collectionName +:+ " ("
  +:+ join ", " clauses +:+ ")".

(** The literal of a default that can be serialised. *)
Definition default_literal (d : DBFieldWithDefault) : string :=
  match d with
  | BooleanDefault b => if b then "TRUE" else "FALSE"
  | NumberDefault x => Number_toString x
  | TextDefault s => sqlite.escapeString s
  | DateDefault s =>
      if String.eqb s "now" then "CURRENT_TIMESTAMP" else sqlite.escapeString s
  | JsonDefault v => sqlite.escapeString (json_text v)
  end.

Definition default_modifier (column : DBField) : string :=
  match hasDefault column with
  | Some d => " DEFAULT " +:+ default_literal d
  | None => ""
  end.

Definition modifiers_in_order (column : DBField) : string :=
  not_null_modifier column +:+ unique_modifier column
  +:+ default_modifier column.

Definition begins_with (c : ascii) (s : string) : bool :=
  match s with
  | String c' _ => Ascii.eqb c c'
  | EmptyString => false
  end.

(** The properties of the object that the loop of [collectionToTable]
    fills, starting from [properties]. *)
Fixpoint mapped_columns (entries : list (string * DBField))
    (isJsonSerializable : bool) (properties : gmap string ColumnBuilder)
  : Outcome (gmap string ColumnBuilder) :=
  match entries with
  | [] => Returns properties
  | (fieldName, field) :: entries' =>
      do c <- columnMapper fieldName field isJsonSerializable;
      mapped_columns entries' isJsonSerializable (<[fieldName := c]> properties)
  end.

(** What [columnMapper] does after the switch. *)
Definition constrained (field : DBField) (c : ColumnBuilder) : ColumnBuilder :=
  let c := if negb (optional field) then set_notNull c else c in
  if unique field then set_unique c else c.

Definition field_names (collection : DBCollection) : list string :=
  map fst (fields collection).

(** The first field, over the collections in order, whose default
    cannot be serialised. *)
Fixpoint first_failing (collections : DBCollections) : option string :=
  match collections with
  | [] => None
  | (_, collection) :: collections' =>
      match first_unserializable (fields collection) with
      | Some columnName => Some columnName
      | None => first_failing collections'
      end
  end.

(** The two statements [createDbTables] pushes for a collection. *)
Definition setup_pair (name createText : string) : list SQL :=
  [sql_raw ("DROP TABLE IF EXISTS " +:+ name); sql_raw createText].

Fixpoint setup_pairs (collections : DBCollections) (createTexts : list string)
  : list SQL :=
  match collections, createTexts with
  | (name, _) :: collections', createText :: createTexts' =>
      setup_pair name createText ++ setup_pairs collections' createTexts'
  | _, _ => []
  end.

(** The value with every Number that is not finite replaced by
    [null]. *)
Fixpoint nulled (v : JSValue) : JSValue :=
  match v with
  | JNumber n => if Number_isFinite n then JNumber n else JNull
  | JArray elements => JArray (map nulled elements)
  | JObject properties =>
      JObject (map (fun kv => (kv.1, nulled kv.2)) properties)
  | other => other
  end.

(** The table [sqliteTable] builds from a record of columns. *)
Definition table_of (name : string) (o : Outcome (gmap string ColumnBuilder))
  : Outcome SQLiteTable :=
  match o with
  | Returns properties =>
      Returns {| tableName := name; tableColumns := properties |}
  | Throws e => Throws e
  | Exits code console => Exits code console
  end.

End Vocabulary.

Definition dquote_char : ascii := "034"%char.

Fixpoint has_char (c : ascii) (s : string) : bool :=
  match s with
  | String c' s' => Ascii.eqb c c' || has_char c s'
  | EmptyString => false
  end.

Fixpoint all_chars (p : ascii -> bool) (s : string) : bool :=
  match s with
  | String c s' => p c && all_chars p s'
  | EmptyString => true
  end.

(** The characters of a URL-safe identifier: letters, digits, [_]
    and [-]. *)
Definition url_safe (c : ascii) : bool :=
  let n := N_of_ascii c in
  (48 <=? n)%N && (n <=? 57)%N || (65 <=? n)%N && (n <=? 90)%N
  || (97 <=? n)%N && (n <=? 122)%N || (n =? 95)%N || (n =? 45)%N.

(** How an SQL lexer reads a quoted identifier at the head of its
    input: the opening double quote, then characters up to the first
    double quote that is not doubled; a doubled one stands for one.  It
    returns the name and the input left after it. *)
Fixpoint read_identifier_body (input : string) : option (string * string) :=
  match input with
  | EmptyString => None
  | String c rest =>
      if Ascii.eqb c dquote_char then
        match rest with
        | String c' rest' =>
            if Ascii.eqb c' dquote_char then
              match read_identifier_body rest' with
              | Some (name, remaining) =>
                  Some (String dquote_char name, remaining)
              | None => None
              end
            else Some ("", rest)
        | EmptyString => Some ("", "")
        end
      else
        match read_identifier_body rest with
        | Some (name, remaining) => Some (String c name, remaining)
        | None => None
        end
  end.

Definition read_quoted_identifier (input : string)
  : option (string * string) :=
  match input with
  | String c rest =>
      if Ascii.eqb c dquote_char then read_identifier_body rest else None
  | EmptyString => None
  end.

(* ================================================================== *)
(** * Properties *)

(** ** Strings *)

Lemma append_nil_l (s : string) : "" +:+ s = s.
Proof. reflexivity. Qed.

Lemma append_cons (c : ascii) (s t : string) :
  String c s +:+ t = String c (s +:+ t).
Proof. reflexivity. Qed.

Lemma append_assoc (s t u : string) : (s +:+ t) +:+ u = s +:+ (t +:+ u).
Proof.
  induction s as [ | c s IH ]; [ done | ].
  rewrite !append_cons. by f_equal.
Qed.

Lemma append_empty_r (s : string) : s +:+ "" = s.
Proof.
  induction s as [ | c s IH ]; [ done | ].
  rewrite append_cons. by f_equal.
Qed.

Lemma append_length (s t : string) :
  String.length (s +:+ t) = String.length s + String.length t.
Proof.
  induction s as [ | c s IH ]; [ done | ].
  rewrite append_cons. cbn [String.length]. by rewrite IH.
Qed.

(* ------------------------------------------------------------------ *)
(** ** Dates *)

Section Dates.
Import DateAlgorithms.
Local Open Scope Z_scope.

Lemma digit_char_spec (d : Z) :
  0 <= d <= 9 ->
  is_digit (digit_char d) = true
  /\ digit_value (digit_char d) = d
  /\ Ascii.eqb (digit_char d) "+" = false
  /\ Ascii.eqb (digit_char d) "-" = false.
Proof.
  intros Hd.
  assert (Hcases : d = 0 \/ d = 1 \/ d = 2 \/ d = 3 \/ d = 4 \/ d = 5
                   \/ d = 6 \/ d = 7 \/ d = 8 \/ d = 9) by lia.
  repeat destruct Hcases as [ -> | Hcases ]; try subst d; by vm_compute.
Qed.

Lemma read_fixed_digits (width k : nat) :
  forall (n : Z) (rest : string) (acc : Z),
    0 <= n < 10 ^ Z.of_nat width ->
    read_fixed (width + k) (fixed_digits width n rest) acc
    = read_fixed k rest (acc * 10 ^ Z.of_nat width + n).
Proof.
  revert k. induction width as [ | width IH ]; intros k n rest acc Hn.
  - cbn [fixed_digits Nat.add]. f_equal. change (10 ^ Z.of_nat 0) with 1 in *. lia.
  - cbn [fixed_digits].
    replace (S width + k)%nat with (width + S k)%nat by lia.
    rewrite Nat2Z.inj_succ, Z.pow_succ_r in Hn by lia.
    rewrite IH by (Z.div_mod_to_equations; nia).
    cbn [read_fixed].
    destruct (digit_char_spec (n mod 10)) as (-> & -> & _).
    { Z.div_mod_to_equations; lia. }
    f_equal. rewrite Nat2Z.inj_succ, Z.pow_succ_r by lia.
    Z.div_mod_to_equations; nia.
Qed.

Lemma read_fixed_exact (width : nat) (n : Z) (rest : string) :
  0 <= n < 10 ^ Z.of_nat width ->
  read_fixed width (fixed_digits width n rest) 0 = Some (n, rest).
Proof.
  intros Hn. rewrite <- (Nat.add_0_r width) at 1.
  rewrite read_fixed_digits by done. reflexivity.
Qed.

Lemma fixed_digits_head (width : nat) (n : Z) (rest : string) :
  0 <= n ->
  exists d tail,
    fixed_digits (S width) n rest = String (digit_char d) tail /\ 0 <= d <= 9.
Proof.
  revert n rest. induction width as [ | width IH ]; intros n rest Hn.
  - exists (n mod 10), rest. split; [ done | Z.div_mod_to_equations; lia ].
  - change (fixed_digits (S (S width)) n rest)
      with (fixed_digits (S width) (n / 10) (String (digit_char (n mod 10)) rest)).
    apply IH. Z.div_mod_to_equations; lia.
Qed.

Lemma DayFromYear_succ (y : Z) :
  DayFromYear (y + 1) = DayFromYear y + DaysInYear y.
Proof.
  unfold DayFromYear, DaysInYear, leap_year.
  destruct (Z.eqb_spec (y mod 4) 0), (Z.eqb_spec (y mod 100) 0),
    (Z.eqb_spec (y mod 400) 0); cbn [andb orb negb];
    Z.div_mod_to_equations; lia.
Qed.

(** [YearFromTime t] is the year that contains the day of [t]. *)
Lemma YearFromTime_spec (t : Z) :
  DayFromYear (YearFromTime t) <= Day t < DayFromYear (YearFromTime t + 1).
Proof.
  unfold YearFromTime.
  set (d := Day t). set (y := 1970 + d * 400 / 146097).
  assert (Hest : DayFromYear (y - 1) <= d < DayFromYear (y + 2)).
  { subst y. unfold DayFromYear. Z.div_mod_to_equations; lia. }
  replace (y + 2) with (y + 1 + 1) in Hest by lia.
  destruct (Z.leb_spec (DayFromYear (y + 1)) d); [ lia | ].
  destruct (Z.leb_spec (DayFromYear y) d); [ lia | ].
  replace (y - 1 + 1) with y by lia. lia.
Qed.

Lemma YearFromTime_range (t : Z) :
  in_time_range t -> - 271822 <= YearFromTime t <= 275761.
Proof.
  unfold in_time_range, maxTime, YearFromTime, Day, msPerDay. intros Ht.
  destruct (Z.leb_spec (DayFromYear (1970 + t / 86400000 * 400 / 146097 + 1))
              (t / 86400000));
    [ | destruct (Z.leb_spec (DayFromYear (1970 + t / 86400000 * 400 / 146097))
                    (t / 86400000)) ];
    Z.div_mod_to_equations; lia.
Qed.

Lemma DayWithinYear_range (t : Z) :
  0 <= DayWithinYear t < 365 + InLeapYear t.
Proof.
  unfold DayWithinYear, InLeapYear, leap_days.
  pose proof (YearFromTime_spec t) as Hy.
  rewrite DayFromYear_succ in Hy. unfold DaysInYear in Hy.
  destruct (leap_year (YearFromTime t)); lia.
Qed.

Lemma InLeapYear_range (t : Z) : 0 <= InLeapYear t <= 1.
Proof. unfold InLeapYear, leap_days. destruct (leap_year _); lia. Qed.

Local Ltac eval_months :=
  repeat match goal with
         | |- context [ month_start (?m + 1) ?leap ] =>
             let m' := eval vm_compute in (m + 1) in
             change (m + 1) with m'
         end;
  cbn [month_start].

Lemma MonthFromTime_bounds (t : Z) :
  0 <= MonthFromTime t <= 11
  /\ month_start (MonthFromTime t) (InLeapYear t) <= DayWithinYear t
     < month_start (MonthFromTime t + 1) (InLeapYear t).
Proof.
  unfold MonthFromTime.
  generalize (DayWithinYear_range t) (InLeapYear_range t).
  generalize (DayWithinYear t) (InLeapYear t). intros d leap Hd Hleap.
  repeat match goal with
         | |- context [ ?a <? ?b ] => destruct (Z.ltb_spec a b); cbv iota
         end; eval_months; lia.
Qed.

Lemma DateFromTime_range (t : Z) :
  1 <= DateFromTime t <= DaysInMonth (MonthFromTime t) (InLeapYear t).
Proof.
  pose proof (MonthFromTime_bounds t). unfold DateFromTime, DaysInMonth. lia.
Qed.

Lemma DaysInMonth_bound (m leap : Z) :
  0 <= m <= 11 -> 0 <= leap <= 1 -> DaysInMonth m leap <= 31.
Proof.
  intros Hm Hleap. unfold DaysInMonth.
  assert (Hcases : m = 0 \/ m = 1 \/ m = 2 \/ m = 3 \/ m = 4 \/ m = 5
                   \/ m = 6 \/ m = 7 \/ m = 8 \/ m = 9 \/ m = 10 \/ m = 11)
    by lia.
  repeat destruct Hcases as [ -> | Hcases ]; try subst m; eval_months; lia.
Qed.

Lemma MakeDay_FromTime (t : Z) :
  MakeDay (YearFromTime t) (MonthFromTime t) (DateFromTime t) = Day t.
Proof. unfold MakeDay, DateFromTime, DayWithinYear, InLeapYear. lia. Qed.

Lemma MakeTime_FromTime (t : Z) :
  MakeTime (HourFromTime t) (MinFromTime t) (SecFromTime t) (msFromTime t)
  = TimeWithinDay t.
Proof.
  unfold MakeTime, HourFromTime, MinFromTime, SecFromTime, msFromTime,
    TimeWithinDay, msPerHour, msPerMinute, msPerSecond, msPerDay.
  Z.div_mod_to_equations; lia.
Qed.

Lemma read_year_numeral (y : Z) (rest : string) :
  - 999999 <= y <= 999999 ->
  read_year (year_numeral y rest) = Some (y, rest).
Proof.
  intros Hy. unfold year_numeral.
  destruct (Z.leb_spec 0 y) as [Hpos|Hneg]; cbn [andb].
  - destruct (Z.leb_spec y 9999) as [Hsmall|Hlarge].
    + destruct (fixed_digits_head 3 y rest Hpos) as (d & tail & Hhead & Hd).
      unfold read_year. rewrite Hhead.
      destruct (digit_char_spec d Hd) as (_ & _ & -> & ->).
      rewrite <- Hhead. apply read_fixed_exact. lia.
    + destruct (Z.ltb_spec y 0); [ lia | ]. unfold read_year.
      change (Ascii.eqb "+" "+") with true. cbv iota.
      rewrite Z.abs_eq by lia. apply read_fixed_exact. lia.
  - destruct (Z.ltb_spec y 0); [ | lia ]. unfold read_year.
    change (Ascii.eqb "-" "+") with false.
    change (Ascii.eqb "-" "-") with true. cbv iota.
    rewrite read_fixed_exact by lia.
    destruct (Z.eqb_spec (Z.abs y) 0); [ lia | ].
    do 2 f_equal. lia.
Qed.

Local Ltac next_field :=
  cbn [mbind option_bind expect]; rewrite Ascii.eqb_refl; cbv iota;
  cbn [mbind option_bind].

(** The interchange format loses nothing of a time value. *)
Lemma parse_iso_string (t : Z) :
  in_time_range t -> parse_iso (iso_string t) = Some t.
Proof.
  intros Ht.
  pose proof (YearFromTime_range t Ht) as Hy.
  destruct (MonthFromTime_bounds t) as [Hm _].
  pose proof (DateFromTime_range t) as Hd.
  pose proof (DaysInMonth_bound _ _ Hm (InLeapYear_range t)) as Hdays.
  assert (Hh : 0 <= HourFromTime t <= 23)
    by (unfold HourFromTime; Z.div_mod_to_equations; lia).
  assert (Hmin : 0 <= MinFromTime t <= 59)
    by (unfold MinFromTime; Z.div_mod_to_equations; lia).
  assert (Hs : 0 <= SecFromTime t <= 59)
    by (unfold SecFromTime; Z.div_mod_to_equations; lia).
  assert (Hms : 0 <= msFromTime t <= 999)
    by (unfold msFromTime, msPerSecond; Z.div_mod_to_equations; lia).
  unfold parse_iso, iso_string.
  rewrite read_year_numeral by lia. next_field.
  rewrite read_fixed_exact by lia. next_field.
  rewrite read_fixed_exact by lia. next_field.
  rewrite read_fixed_exact by lia. next_field.
  rewrite read_fixed_exact by lia. next_field.
  rewrite read_fixed_exact by lia. next_field.
  rewrite read_fixed_exact by lia. next_field.
  change (String.eqb "" "") with true.
  replace (MonthFromTime t + 1 - 1) with (MonthFromTime t) by lia.
  change (leap_days (YearFromTime t)) with (InLeapYear t).
  repeat match goal with
         | |- context [ ?a <=? ?b ] =>
             destruct (Z.leb_spec a b); [ | lia ]
         end.
  cbn [andb]. f_equal.
  rewrite MakeDay_FromTime, MakeTime_FromTime.
  unfold MakeDate, Day, TimeWithinDay, msPerDay.
  Z.div_mod_to_equations; lia.
Qed.

End Dates.

(** ** JSON texts *)

Section JSValueInduction.
Context `{Host}.

Lemma JSValue_ind (P : JSValue -> Prop) :
  P JNull ->
  (forall b, P (JBool b)) ->
  (forall n, P (JNumber n)) ->
  (forall s, P (JString s)) ->
  (forall elements, Forall P elements -> P (JArray elements)) ->
  (forall properties,
      Forall (fun kv => P kv.2) properties -> P (JObject properties)) ->
  (forall k, P (JAncestor k)) ->
  forall v, P v.
Proof.
  intros Hnull Hbool Hnum Hstr Harr Hobj Hanc.
  fix IH 1. intros [ | b | n | s | elements | properties | k ].
  - exact Hnull.
  - apply Hbool.
  - apply Hnum.
  - apply Hstr.
  - apply Harr. induction elements as [ | e l IHl ]; constructor.
    + apply IH.
    + exact IHl.
  - apply Hobj. induction properties as [ | [P' e] l IHl ]; constructor.
    + apply IH.
    + exact IHl.
  - apply Hanc.
Qed.

(** [JSON.stringify] returns the text of an acyclic value and throws
    on any other; it never ends the process. *)
Lemma SerializeJSONProperty_acyclic (v : JSValue) :
  SerializeJSONProperty v
  = if acyclic v then Returns (json_text v) else Throws circular.
Proof.
  induction v as [ | b | n | s | elements IH | properties IH | k ]
    using JSValue_ind; try reflexivity.
  - cbn [SerializeJSONProperty acyclic json_text].
    match goal with
    | |- bind (?f elements) _ = _ =>
        assert (Hl : f elements
                     = if forallb acyclic elements
                       then Returns (map json_text elements)
                       else Throws circular)
    end.
    { induction IH as [ | e l He _ IHl ]; [ reflexivity | ].
      rewrite He. cbn [forallb map]. destruct (acyclic e); [ | reflexivity ].
      cbn [bind andb]. rewrite IHl.
      destruct (forallb acyclic l); reflexivity. }
    rewrite Hl. destruct (forallb acyclic elements); reflexivity.
  - cbn [SerializeJSONProperty acyclic json_text].
    match goal with
    | |- bind (?f properties) _ = _ =>
        assert (Hl : f properties
                     = if forallb (fun kv => acyclic kv.2) properties
                       then Returns
                              (map (fun kv => QuoteJSONString kv.1 +:+ ":"
                                              +:+ json_text kv.2) properties)
                       else Throws circular)
    end.
    { induction IH as [ | [P e] l He _ IHl ]; [ reflexivity | ].
      cbn [snd fst] in He. rewrite He. cbn [forallb map snd fst].
      destruct (acyclic e); [ | reflexivity ].
      cbn [bind andb]. rewrite IHl.
      destruct (forallb (fun kv => acyclic kv.2) l); reflexivity. }
    rewrite Hl.
    destruct (forallb (fun kv => acyclic kv.2) properties); reflexivity.
Qed.

End JSValueInduction.

(* ------------------------------------------------------------------ *)
(** ** Reading back a JSON text *)

Local Ltac each_char c :=
  destruct c as [[|] [|] [|] [|] [|] [|] [|] [|]].

Lemma value_start_not_closing (c : ascii) :
  value_start c = true ->
  is_whitespace c = false
  /\ Ascii.eqb c "]" = false /\ Ascii.eqb c "}" = false.
Proof. each_char c; vm_compute; intros; try discriminate; by repeat split. Qed.

Lemma number_start_dispatch (c : ascii) :
  is_digit c || Ascii.eqb c "-" = true ->
  is_whitespace c = false
  /\ Ascii.eqb c "n" = false /\ Ascii.eqb c "t" = false
  /\ Ascii.eqb c "f" = false /\ (N_of_ascii c =? 34)%N = false
  /\ Ascii.eqb c "[" = false /\ Ascii.eqb c "{" = false.
Proof. each_char c; vm_compute; intros; try discriminate; by repeat split. Qed.

Lemma read_quote_char (c : ascii) (input : string) :
  read_string_token (quote_char c +:+ input)
  = '(s, remaining) ← read_string_token input; Some (String c s, remaining).
Proof. each_char c; reflexivity. Qed.

Lemma read_quote_chars (s rest : string) :
  read_string_token (quote_chars s +:+ String "034" rest) = Some (s, rest).
Proof.
  induction s as [ | c s IH ]; [ reflexivity | ].
  cbn [quote_chars]. rewrite append_assoc, read_quote_char, IH. reflexivity.
Qed.

Lemma QuoteJSONString_append (s rest : string) :
  QuoteJSONString s +:+ rest
  = String "034" (quote_chars s +:+ String "034" rest).
Proof.
  unfold QuoteJSONString, dquote. rewrite !append_assoc. reflexivity.
Qed.

Lemma number_chars_skip_digits (s : string) :
  number_chars (skip_digits s) = true -> number_chars s = true.
Proof.
  induction s as [ | c s IH ]; [ done | ].
  cbn [skip_digits]. destruct (is_digit c) eqn:Hc; [ | done ].
  intros Hs. cbn [number_chars]. unfold is_number_char. rewrite Hc.
  by apply IH.
Qed.

Lemma json_exponent_chars (s : string) :
  json_exponent s = true -> number_chars s = true.
Proof.
  destruct s as [ | c s ]; [ done | ]. cbn [json_exponent number_chars].
  destruct (Ascii.eqb c "e" || Ascii.eqb c "E") eqn:Hc; [ | done ].
  assert (Hchar : is_number_char c = true).
  { unfold is_number_char. apply orb_true_iff in Hc as [-> | ->];
      by rewrite !orb_true_r. }
  rewrite Hchar. cbn [andb]. intros Hs.
  apply andb_true_iff in Hs as [_ Hs]. apply String.eqb_eq in Hs.
  destruct s as [ | c' s' ]; [ done | ].
  destruct (Ascii.eqb c' "+" || Ascii.eqb c' "-") eqn:Hsign.
  - cbn [number_chars].
    assert (Hchar' : is_number_char c' = true).
    { unfold is_number_char. apply orb_true_iff in Hsign as [-> | ->];
        by rewrite !orb_true_r. }
    rewrite Hchar'. apply number_chars_skip_digits. by rewrite Hs.
  - apply number_chars_skip_digits. by rewrite Hs.
Qed.

Lemma json_fraction_chars (s : string) :
  json_fraction s = true -> number_chars s = true.
Proof.
  destruct s as [ | c s ]; [ done | ]. cbn [json_fraction].
  destruct (Ascii.eqb_spec c ".") as [-> | _].
  - intros Hs. apply andb_true_iff in Hs as [_ Hs].
    cbn [number_chars]. change (is_number_char ".") with true.
    by apply number_chars_skip_digits, json_exponent_chars.
  - apply json_exponent_chars.
Qed.

Lemma json_integer_chars (s : string) :
  json_integer s = true -> number_chars s = true.
Proof.
  destruct s as [ | c s ]; [ done | ]. cbn [json_integer number_chars].
  destruct (Ascii.eqb_spec c "0") as [-> | _].
  - change (is_number_char "0") with true. apply json_fraction_chars.
  - intros Hs. apply andb_true_iff in Hs as [Hc Hs].
    unfold is_number_char. rewrite Hc.
    by apply number_chars_skip_digits, json_fraction_chars.
Qed.

Lemma is_json_number_chars (token : string) :
  is_json_number token = true -> number_chars token = true.
Proof.
  destruct token as [ | c s ]; [ done | ]. cbn [is_json_number].
  destruct (Ascii.eqb_spec c "-") as [-> | _].
  - cbn [number_chars]. change (is_number_char "-") with true.
    apply json_integer_chars.
  - apply json_integer_chars.
Qed.

Lemma is_json_number_head (token : string) :
  is_json_number token = true ->
  exists c tail,
    token = String c tail /\ is_digit c || Ascii.eqb c "-" = true.
Proof.
  destruct token as [ | c s ]; [ done | ]. cbn [is_json_number].
  intros Htoken. exists c, s. split; [ done | ].
  destruct (Ascii.eqb_spec c "-") as [-> | _]; [ done | ].
  cbn [json_integer] in Htoken.
  destruct (Ascii.eqb_spec c "0") as [-> | _]; [ done | ].
  apply andb_true_iff in Htoken as [-> _]. done.
Qed.

Lemma read_number_token_exact (token rest : string) :
  number_chars token = true -> delimited rest = true ->
  read_number_token (token +:+ rest) = (token, rest).
Proof.
  intros Htoken Hrest. induction token as [ | c s IH ].
  - rewrite append_nil_l. destruct rest as [ | c rest ]; [ done | ].
    cbn [delimited] in Hrest. cbn [read_number_token].
    by destruct (is_number_char c).
  - cbn [number_chars] in Htoken. apply andb_true_iff in Htoken as [Hc Hs].
    rewrite append_cons. cbn [read_number_token]. by rewrite Hc, IH.
Qed.

Lemma join_single (sep x : string) : join sep [x] = x.
Proof. reflexivity. Qed.

Lemma join_cons (sep x y : string) (l : list string) :
  join sep (x :: y :: l) = x +:+ sep +:+ join sep (y :: l).
Proof. reflexivity. Qed.

(** *** The order of the properties *)

Section Properties.
Context `{Host}.

Lemma enumeration_order_app_l (keys keys' : list string) :
  enumeration_order (keys ++ keys') -> enumeration_order keys.
Proof.
  induction keys as [ | P keys IH ]; [ done | ].
  cbn [app enumeration_order]. intros [Hbefore Horder].
  split; [ | by apply IH ].
  apply Forall_app in Hbefore. tauto.
Qed.

Lemma enumeration_order_last (keys : list string) (P : string) :
  enumeration_order (keys ++ [P]) ->
  Forall (fun Q => enumerated_before Q P) keys.
Proof.
  induction keys as [ | Q keys IH ]; [ constructor | ].
  cbn [app enumeration_order]. intros [Hbefore Horder].
  constructor; [ | by apply IH ].
  apply Forall_app in Hbefore as [_ Hlast]. by inversion Hlast.
Qed.

Lemma enumerated_before_ne (Q P : string) : enumerated_before Q P -> Q <> P.
Proof.
  unfold enumerated_before. intros Hbefore ->.
  destruct (array_index P); [ lia | done ].
Qed.

Lemma has_property_fresh (object : list (string * JSValue)) (P : string) :
  Forall (fun Q => enumerated_before Q P) (map fst object) ->
  has_property object P = false.
Proof.
  induction object as [ | [Q W] object IH ]; [ done | ].
  cbn [map fst has_property]. intros Hbefore.
  inversion Hbefore as [ | ? ? HQ Hrest ]; subst.
  apply enumerated_before_ne in HQ.
  destruct (String.eqb_spec Q P); [ done | by apply IH ].
Qed.

Lemma insert_index_last (object : list (string * JSValue)) (i : Z)
    (P : string) (V : JSValue) :
  array_index P = Some i ->
  Forall (fun Q => enumerated_before Q P) (map fst object) ->
  insert_index object i P V = object ++ [(P, V)].
Proof.
  intros HP. induction object as [ | [Q W] object IH ]; [ done | ].
  cbn [map fst insert_index app]. intros Hbefore.
  inversion Hbefore as [ | ? ? HQ Hrest ]; subst.
  unfold enumerated_before in HQ. rewrite HP in HQ.
  destruct (array_index Q) as [j|]; [ | done ].
  destruct (Z.ltb_spec j i); [ | lia ]. by rewrite IH.
Qed.

Lemma CreateDataProperty_append (object : list (string * JSValue))
    (P : string) (V : JSValue) :
  enumeration_order (map fst (object ++ [(P, V)])) ->
  CreateDataProperty object P V = object ++ [(P, V)].
Proof.
  rewrite map_app. cbn [map fst]. intros Horder.
  apply enumeration_order_last in Horder.
  unfold CreateDataProperty. rewrite has_property_fresh by done.
  destruct (array_index P) as [i|] eqn:HP; [ | done ].
  by apply insert_index_last.
Qed.

End Properties.

(** *** Values *)

Section RoundTrip.
Context `{Host}.

Lemma supported_array (elements : list JSValue) :
  supported (JArray elements) <-> Forall supported elements.
Proof.
  cbn [supported]. induction elements as [ | e l IH ].
  - split; [ constructor | done ].
  - rewrite Forall_cons, <- IH. reflexivity.
Qed.

Lemma supported_object (properties : list (string * JSValue)) :
  supported (JObject properties)
  <-> enumeration_order (map fst properties)
      /\ Forall (fun kv => supported kv.2) properties.
Proof.
  cbn [supported].
  assert (Hall : (fix all (l : list (string * JSValue)) : Prop :=
                    match l with
                    | [] => True
                    | kv :: l' => supported kv.2 /\ all l'
                    end) properties
                 <-> Forall (fun kv => supported kv.2) properties).
  { induction properties as [ | kv l IH ].
    - split; [ constructor | done ].
    - rewrite Forall_cons, <- IH. reflexivity. }
  by rewrite Hall.
Qed.

Lemma json_text_start (v : JSValue) :
  supported v ->
  exists c tail, json_text v = String c tail /\ value_start c = true.
Proof.
  destruct v as [ | [|] | n | s | elements | properties | k ];
    cbn [supported json_text]; intros Hv;
    try (by eexists _, _; split; [ reflexivity | ]).
  - destruct Hv as (-> & Htoken & _).
    destruct (is_json_number_head _ Htoken) as (c & tail & -> & Hc).
    exists c, tail. split; [ done | ].
    unfold value_start. rewrite Hc. reflexivity.
  - done.
Qed.

Lemma skip_whitespace_start (c : ascii) (s : string) :
  is_whitespace c = false -> skip_whitespace (String c s) = String c s.
Proof. intros Hc. cbn [skip_whitespace]. by rewrite Hc. Qed.

Lemma skip_whitespace_text (v : JSValue) (rest : string) :
  supported v ->
  exists c tail,
    json_text v +:+ rest = String c tail
    /\ skip_whitespace (json_text v +:+ rest) = String c tail
    /\ Ascii.eqb c "]" = false /\ Ascii.eqb c "}" = false.
Proof.
  intros Hv. destruct (json_text_start v Hv) as (c & tail & -> & Hc).
  destruct (value_start_not_closing c Hc) as (Hws & Hbracket & Hbrace).
  exists c, (tail +:+ rest). rewrite append_cons.
  by rewrite skip_whitespace_start.
Qed.

(** The parser, one step at a time. *)
Lemma parse_value_string (fuel : nat) (input : string) :
  parse_value (S fuel) (String "034" input)
  = '(s, remaining) ← read_string_token input; Some (JString s, remaining).
Proof. reflexivity. Qed.

Lemma parse_value_number (fuel : nat) (c : ascii) (input : string) :
  is_digit c || Ascii.eqb c "-" = true ->
  parse_value (S fuel) (String c input)
  = let '(token, remaining) := read_number_token (String c input) in
    if is_json_number token
    then n ← StringToNumber token; Some (JNumber n, remaining)
    else None.
Proof.
  intros Hc.
  destruct (number_start_dispatch c Hc) as (Hws & Hn & Ht & Hf & Hq & Ha & Ho).
  cbn [parse_value]. rewrite skip_whitespace_start by done.
  by rewrite Hn, Ht, Hf, Hq, Ha, Ho, Hc.
Qed.

Lemma parse_value_empty_array (fuel : nat) (rest : string) :
  parse_value (S fuel) (String "[" (String "]" rest)) = Some (JArray [], rest).
Proof. reflexivity. Qed.

Lemma parse_value_empty_object (fuel : nat) (rest : string) :
  parse_value (S fuel) (String "{" (String "}" rest)) = Some (JObject [], rest).
Proof. reflexivity. Qed.

Lemma parse_value_array (fuel : nat) (c : ascii) (tail : string) :
  skip_whitespace (String c tail) = String c tail ->
  Ascii.eqb c "]" = false ->
  parse_value (S fuel) (String "[" (String c tail))
  = parse_elements fuel (String c tail) [].
Proof.
  intros Hws Hc.
  change (parse_value (S fuel) (String "[" (String c tail)))
    with (match skip_whitespace (String c tail) with
          | String c' remaining =>
              if Ascii.eqb c' "]" then Some (JArray [], remaining)
              else parse_elements fuel (String c tail) []
          | EmptyString => None
          end).
  by rewrite Hws, Hc.
Qed.

Lemma parse_value_object (fuel : nat) (c : ascii) (tail : string) :
  skip_whitespace (String c tail) = String c tail ->
  Ascii.eqb c "}" = false ->
  parse_value (S fuel) (String "{" (String c tail))
  = parse_members fuel (String c tail) [].
Proof.
  intros Hws Hc.
  change (parse_value (S fuel) (String "{" (String c tail)))
    with (match skip_whitespace (String c tail) with
          | String c' remaining =>
              if Ascii.eqb c' "}" then Some (JObject [], remaining)
              else parse_members fuel (String c tail) []
          | EmptyString => None
          end).
  by rewrite Hws, Hc.
Qed.

Lemma parse_elements_next (fuel : nat) (input rest : string)
    (elements : list JSValue) (v : JSValue) :
  parse_value fuel input = Some (v, String "," rest) ->
  parse_elements (S fuel) input elements
  = parse_elements fuel rest (elements ++ [v]).
Proof.
  intros Hv.
  change (parse_elements (S fuel) input elements)
    with ('(v, input) ← parse_value fuel input;
          match skip_whitespace input with
          | String c input =>
              if Ascii.eqb c ","
              then parse_elements fuel input (elements ++ [v])
              else if Ascii.eqb c "]"
                   then Some (JArray (elements ++ [v]), input)
                   else None
          | EmptyString => None
          end).
  rewrite Hv. reflexivity.
Qed.

Lemma parse_elements_last (fuel : nat) (input rest : string)
    (elements : list JSValue) (v : JSValue) :
  parse_value fuel input = Some (v, String "]" rest) ->
  parse_elements (S fuel) input elements = Some (JArray (elements ++ [v]), rest).
Proof.
  intros Hv.
  change (parse_elements (S fuel) input elements)
    with ('(v, input) ← parse_value fuel input;
          match skip_whitespace input with
          | String c input =>
              if Ascii.eqb c ","
              then parse_elements fuel input (elements ++ [v])
              else if Ascii.eqb c "]"
                   then Some (JArray (elements ++ [v]), input)
                   else None
          | EmptyString => None
          end).
  rewrite Hv. reflexivity.
Qed.

Lemma parse_members_key (fuel : nat) (P input : string)
    (object : list (string * JSValue)) :
  parse_members (S fuel) (QuoteJSONString P +:+ String ":" input) object
  = '(v, input) ← parse_value fuel input;
    match skip_whitespace input with
    | String c input =>
        if Ascii.eqb c ","
        then parse_members fuel input (CreateDataProperty object P v)
        else if Ascii.eqb c "}"
             then Some (JObject (CreateDataProperty object P v), input)
             else None
    | EmptyString => None
    end.
Proof.
  rewrite QuoteJSONString_append.
  change (parse_members (S fuel)
            (String "034" (quote_chars P +:+ String "034" (String ":" input)))
            object)
    with ('(P, input) ←
            read_string_token
              (quote_chars P +:+ String "034" (String ":" input));
          match skip_whitespace input with
          | String c input =>
              if Ascii.eqb c ":" then
                '(v, input) ← parse_value fuel input;
                let object := CreateDataProperty object P v in
                match skip_whitespace input with
                | String c input =>
                    if Ascii.eqb c "," then parse_members fuel input object
                    else if Ascii.eqb c "}" then Some (JObject object, input)
                    else None
                | EmptyString => None
                end
              else None
          | EmptyString => None
          end).
  rewrite read_quote_chars. reflexivity.
Qed.

Lemma join_append (x y : string) (l : list string) (rest : string) :
  join "," (x :: y :: l) +:+ rest
  = x +:+ String "," (join "," (y :: l) +:+ rest).
Proof. rewrite join_cons, !append_assoc. reflexivity. Qed.

Local Ltac read_delimiter :=
  cbn [mbind option_bind];
  match goal with
  | |- context [ skip_whitespace (String ?c ?r) ] =>
      change (skip_whitespace (String c r)) with (String c r)
  end;
  repeat match goal with
         | |- context [ Ascii.eqb ?a ?b ] =>
             let v := eval vm_compute in (Ascii.eqb a b) in
             lazymatch v with
             | true => change (Ascii.eqb a b) with true
             | false => change (Ascii.eqb a b) with false
             end
         end;
  cbv iota.

Lemma parse_elements_text (l : list JSValue) :
  forall (e : JSValue) (elements : list JSValue) (fuel : nat) (rest : string),
    Forall reads_back (e :: l) ->
    list_sum (map (fun e => S (fuel_needed e)) (e :: l)) <= fuel ->
    parse_elements fuel
      (join "," (map json_text (e :: l)) +:+ String "]" rest) elements
    = Some (JArray (elements ++ e :: l), rest).
Proof.
  induction l as [ | e' l IH ]; intros e elements fuel rest Hall Hfuel;
    unfold list_sum in *; cbn [map fold_right] in Hfuel;
    (destruct fuel as [ | fuel ]; [ lia | ]);
    inversion Hall as [ | ? ? He Hl ]; subst.
  - cbn [map]. rewrite join_single.
    apply parse_elements_last, He; [ lia | done ].
  - rewrite (map_cons json_text e), (map_cons json_text e'), join_append.
    rewrite <- (map_cons json_text e').
    erewrite parse_elements_next; [ | apply He; [ lia | done ] ].
    rewrite (IH e' (elements ++ [e]) fuel rest Hl);
      [ by rewrite <- app_assoc | cbn [map fold_right]; lia ].
Qed.

Lemma parse_members_text (l : list (string * JSValue)) :
  forall (kv : string * JSValue) (object : list (string * JSValue))
         (fuel : nat) (rest : string),
    Forall (fun kv => reads_back kv.2) (kv :: l) ->
    enumeration_order (map fst (object ++ kv :: l)) ->
    list_sum (map (fun kv => S (fuel_needed kv.2)) (kv :: l)) <= fuel ->
    parse_members fuel
      (join "," (map member_text (kv :: l)) +:+ String "}" rest) object
    = Some (JObject (object ++ kv :: l), rest).
Proof.
  induction l as [ | kv' l IH ];
    intros [P v] object fuel rest Hall Horder Hfuel;
    unfold list_sum in *; cbn [map fold_right snd] in Hfuel;
    (destruct fuel as [ | fuel ]; [ lia | ]);
    inversion Hall as [ | ? ? Hv Hl ]; subst; cbn [snd] in Hv.
  - cbn [map]. rewrite join_single. unfold member_text. cbn [fst snd].
    rewrite !append_assoc.
    change (":" +:+ json_text v +:+ String "}" rest)
      with (String ":" (json_text v +:+ String "}" rest)).
    rewrite parse_members_key, Hv by (lia || done). read_delimiter.
    by rewrite CreateDataProperty_append.
  - rewrite (map_cons member_text (P, v)), (map_cons member_text kv'),
      join_append.
    rewrite <- (map_cons member_text kv'). unfold member_text at 1.
    cbn [fst snd]. rewrite !append_assoc.
    change (":" +:+ json_text v
            +:+ String "," (join "," (map member_text (kv' :: l))
                            +:+ String "}" rest))
      with (String ":" (json_text v
                        +:+ String "," (join "," (map member_text (kv' :: l))
                                        +:+ String "}" rest))).
    rewrite parse_members_key, Hv by (lia || done). read_delimiter.
    assert (Hprefix : enumeration_order (map fst (object ++ [(P, v)]))).
    { apply (enumeration_order_app_l _ (map fst (kv' :: l))).
      rewrite <- map_app, <- app_assoc. exact Horder. }
    rewrite CreateDataProperty_append by done.
    rewrite (IH kv' (object ++ [(P, v)]) fuel rest Hl).
    + by rewrite <- app_assoc.
    + by rewrite <- app_assoc.
    + cbn [map fold_right]. lia.
Qed.

(** Parsing the text of a supported value gives the value back and
    stops where the text ends. *)
Lemma parse_value_text (v : JSValue) : supported v -> reads_back v.
Proof.
  induction v as [ | b | n | s | elements IH | properties IH | k ]
    using JSValue_ind; intros Hv fuel rest Hfuel Hrest;
    cbn [fuel_needed] in Hfuel; (destruct fuel as [ | fuel ]; [ lia | ]).
  - reflexivity.
  - by destruct b.
  - destruct Hv as (Hfinite & Htoken & Hnumber). cbn [json_text].
    rewrite Hfinite.
    destruct (is_json_number_head _ Htoken) as (c & tail & Htext & Hc).
    rewrite Htext, append_cons, parse_value_number by done.
    rewrite <- append_cons, <- Htext.
    rewrite read_number_token_exact
      by (done || by apply is_json_number_chars).
    by rewrite Htoken, Hnumber.
  - cbn [json_text]. rewrite QuoteJSONString_append, parse_value_string.
    by rewrite read_quote_chars.
  - apply supported_array in Hv. cbn [json_text].
    destruct elements as [ | e l ]; [ reflexivity | ].
    rewrite !append_assoc.
    change ("[" +:+ join "," (map json_text (e :: l)) +:+ "]" +:+ rest)
      with (String "["
              (join "," (map json_text (e :: l)) +:+ String "]" rest)).
    assert (Hall : Forall reads_back (e :: l)).
    { apply Forall_forall. intros x Hx.
      rewrite Forall_forall in IH. rewrite Forall_forall in Hv.
      by apply IH, Hv. }
    assert (Hhead : exists c tail,
               join "," (map json_text (e :: l)) +:+ String "]" rest
               = String c tail
               /\ skip_whitespace (String c tail) = String c tail
               /\ Ascii.eqb c "]" = false).
    { inversion Hv as [ | ? ? He _ ]; subst.
      destruct l as [ | e' l ]; cbn [map].
      - rewrite join_single.
        destruct (skip_whitespace_text e (String "]" rest) He)
          as (c & tail & Htext & Hws & Hc & _).
        rewrite Htext in Hws. by exists c, tail.
      - rewrite join_append.
        destruct (skip_whitespace_text e
                    (String "," (join "," (json_text e' :: map json_text l)
                                 +:+ String "]" rest)) He)
          as (c & tail & Htext & Hws & Hc & _).
        rewrite Htext in Hws. by exists c, tail. }
    destruct Hhead as (c & tail & Htext & Hws & Hc).
    rewrite Htext, parse_value_array by done. rewrite <- Htext.
    by rewrite (parse_elements_text l e [] fuel rest Hall) by lia.
  - apply supported_object in Hv as [Horder Hv]. cbn [json_text].
    destruct properties as [ | kv l ]; [ reflexivity | ].
    rewrite !append_assoc.
    change ("{" +:+ join "," (map (fun kv => QuoteJSONString kv.1 +:+ ":"
                                              +:+ json_text kv.2) (kv :: l))
            +:+ "}" +:+ rest)
      with (String "{"
              (join "," (map member_text (kv :: l)) +:+ String "}" rest)).
    assert (Hall : Forall (fun kv => reads_back kv.2) (kv :: l)).
    { apply Forall_forall. intros x Hx.
      rewrite Forall_forall in IH. rewrite Forall_forall in Hv.
      by apply IH, Hv. }
    assert (Hhead : exists tail,
               join "," (map member_text (kv :: l)) +:+ String "}" rest
               = String "034" tail).
    { destruct l as [ | kv' l ]; cbn [map].
      - rewrite join_single. unfold member_text.
        rewrite append_assoc, QuoteJSONString_append. by eexists.
      - rewrite join_append. unfold member_text at 1.
        rewrite append_assoc, QuoteJSONString_append. by eexists. }
    destruct Hhead as (tail & Htext).
    rewrite Htext, parse_value_object by done. rewrite <- Htext.
    by rewrite (parse_members_text l kv [] fuel rest Hall) by (done || lia).
  - done.
Qed.

End RoundTrip.

Section Codecs.
Context `{Host}.

Lemma join_length (l : list string) (x : string) :
  String.length (join "," (x :: l))
  = String.length x + list_sum (map (fun y => S (String.length y)) l).
Proof.
  revert x. induction l as [ | y l IH ]; intros x.
  - rewrite join_single. cbn. lia.
  - rewrite join_cons, !append_length, IH. unfold list_sum. cbn. lia.
Qed.

Lemma fuel_needed_length (v : JSValue) :
  supported v -> fuel_needed v <= String.length (json_text v).
Proof.
  induction v as [ | b | n | s | elements IH | properties IH | k ]
    using JSValue_ind; intros Hv; cbn [fuel_needed json_text].
  - cbn. lia.
  - destruct b; cbn; lia.
  - destruct (json_text_start _ Hv) as (c & tail & Htext & _).
    cbn [json_text] in Htext. rewrite Htext. cbn. lia.
  - unfold QuoteJSONString, dquote. rewrite append_cons. cbn. lia.
  - apply supported_array in Hv. rewrite !append_length.
    destruct elements as [ | e l ]; [ cbn; lia | ].
    rewrite (map_cons json_text), join_length, map_map.
    inversion Hv as [ | ? ? He Hl ]; inversion IH as [ | ? ? IHe IHl ]; subst.
    specialize (IHe He).
    assert (Hsum : list_sum (map (fun e => S (fuel_needed e)) l)
                   <= list_sum (map (fun e => S (String.length (json_text e))) l)).
    { clear He IHe IH Hv. induction l as [ | e' l IHl' ]; [ cbn; lia | ].
      inversion Hl; inversion IHl; subst. cbn [map list_sum fold_right].
      unfold list_sum in IHl'. specialize (IHl' ltac:(done) ltac:(done)).
      assert (fuel_needed e' <= String.length (json_text e')) by auto.
      apply Nat.add_le_mono; [ lia | exact IHl' ]. }
    cbn [map list_sum fold_right String.length] in *.
    unfold list_sum in *. lia.
  - apply supported_object in Hv as [_ Hv]. rewrite !append_length.
    destruct properties as [ | kv l ]; [ cbn; lia | ].
    rewrite (map_cons (fun kv => QuoteJSONString kv.1 +:+ ":"
                                 +:+ json_text kv.2)), join_length, map_map.
    inversion Hv as [ | ? ? He Hl ]; inversion IH as [ | ? ? IHe IHl ]; subst.
    specialize (IHe He).
    assert (Hsum : list_sum (map (fun kv => S (fuel_needed kv.2)) l)
                   <= list_sum
                        (map (fun kv =>
                                S (String.length
                                     (QuoteJSONString kv.1 +:+ ":"
                                      +:+ json_text kv.2))) l)).
    { clear He IHe IH Hv. induction l as [ | kv' l IHl' ]; [ cbn; lia | ].
      inversion Hl; inversion IHl; subst. cbn [map list_sum fold_right].
      unfold list_sum in IHl'. specialize (IHl' ltac:(done) ltac:(done)).
      assert (fuel_needed kv'.2 <= String.length (json_text kv'.2)) by auto.
      apply Nat.add_le_mono; [ rewrite !append_length; lia | exact IHl' ]. }
    rewrite !append_length.
    cbn [map list_sum fold_right String.length] in *.
    unfold list_sum in *. lia.
  - done.
Qed.

Lemma supported_acyclic (v : JSValue) : supported v -> acyclic v = true.
Proof.
  induction v as [ | b | n | s | elements IH | properties IH | k ]
    using JSValue_ind; intros Hv; try done.
  - apply supported_array in Hv. cbn [acyclic]. apply forallb_forall.
    intros e He. rewrite Forall_forall in IH. rewrite Forall_forall in Hv.
    apply list_elem_of_In in He. by apply IH, Hv.
  - apply supported_object in Hv as [_ Hv]. cbn [acyclic].
    apply forallb_forall. intros kv Hkv.
    rewrite Forall_forall in IH. rewrite Forall_forall in Hv.
    apply list_elem_of_In in Hkv. by apply IH, Hv.
Qed.

(** [JSON.parse] returns a supported value from its text. *)
Lemma JSON_parse_text (v : JSValue) :
  supported v -> JSON_parse (json_text v) = Returns v.
Proof.
  intros Hv. unfold JSON_parse.
  rewrite <- (append_empty_r (json_text v)) at 2.
  rewrite (parse_value_text v Hv); [ reflexivity | | reflexivity ].
  pose proof (fuel_needed_length v Hv). lia.
Qed.

End Codecs.

(** *** The host of integers *)

Section IntegerNumerals.
Local Open Scope Z_scope.

Lemma digit_char_not_zero (d : Z) :
  1 <= d <= 9 -> Ascii.eqb (digit_char d) "0" = false.
Proof.
  intros Hd.
  assert (Hcases : d = 1 \/ d = 2 \/ d = 3 \/ d = 4 \/ d = 5
                   \/ d = 6 \/ d = 7 \/ d = 8 \/ d = 9) by lia.
  repeat destruct Hcases as [ -> | Hcases ]; try subst d; by vm_compute.
Qed.

Lemma mod_10_digit (n : Z) :
  is_digit (digit_char (n mod 10)) = true
  /\ digit_value (digit_char (n mod 10)) = n mod 10
  /\ Ascii.eqb (digit_char (n mod 10)) "-" = false.
Proof.
  destruct (digit_char_spec (n mod 10)) as (? & ? & ? & ?);
    [ Z.div_mod_to_equations; lia | done ].
Qed.

Lemma fixed_digits_split (width : nat) :
  forall (n : Z) (tail : string),
    fixed_digits (S width) n tail
    = String (digit_char (n / 10 ^ Z.of_nat width mod 10))
        (fixed_digits width n tail).
Proof.
  induction width as [ | width IH ]; intros n tail.
  - cbn [fixed_digits]. change (10 ^ Z.of_nat 0) with 1. by rewrite Z.div_1_r.
  - change (fixed_digits (S (S width)) n tail)
      with (fixed_digits (S width) (n / 10)
              (String (digit_char (n mod 10)) tail)).
    rewrite IH. cbn [fixed_digits]. do 3 f_equal.
    rewrite Nat2Z.inj_succ, Z.pow_succ_r, Z.div_div by lia. reflexivity.
Qed.

Lemma skip_digits_fixed (width : nat) :
  forall (n : Z) (tail : string),
    skip_digits (fixed_digits width n tail) = skip_digits tail.
Proof.
  induction width as [ | width IH ]; intros n tail; [ done | ].
  cbn [fixed_digits]. rewrite IH. cbn [skip_digits].
  by destruct (mod_10_digit n) as (-> & _).
Qed.

Lemma read_digits_fixed (width : nat) :
  forall (n : Z) (tail : string) (acc : Z),
    0 <= n < 10 ^ Z.of_nat width ->
    read_digits (fixed_digits width n tail) acc
    = read_digits tail (acc * 10 ^ Z.of_nat width + n).
Proof.
  induction width as [ | width IH ]; intros n tail acc Hn.
  - cbn [fixed_digits]. f_equal. change (10 ^ Z.of_nat 0) with 1 in *. lia.
  - cbn [fixed_digits].
    rewrite Nat2Z.inj_succ, Z.pow_succ_r in Hn by lia.
    rewrite IH by (Z.div_mod_to_equations; nia).
    cbn [read_digits].
    destruct (mod_10_digit n) as (-> & -> & _).
    f_equal. rewrite Nat2Z.inj_succ, Z.pow_succ_r by lia.
    Z.div_mod_to_equations; nia.
Qed.

(** The numeral of a natural number is its digits without a leading
    zero. *)
Lemma natural_digits_fixed (fuel : nat) :
  forall (n : Z) (tail : string),
    0 <= n -> Z.log2 n <= Z.of_nat fuel ->
    exists width,
      natural_digits fuel n tail = fixed_digits (S width) n tail
      /\ n < 10 ^ Z.of_nat (S width)
      /\ (width = O \/ 10 ^ Z.of_nat width <= n).
Proof.
  induction fuel as [ | fuel IH ]; intros n tail Hn Hlog.
  - assert (n < 2).
    { destruct (Z.lt_ge_cases n 2); [ done | ].
      assert (1 <= Z.log2 n) by (apply (Z.log2_le_mono 2 n); lia). lia. }
    exists O. split; [ reflexivity | ]. split; [ | by left ].
    change (10 ^ Z.of_nat 1) with 10. lia.
  - cbn [natural_digits]. destruct (Z.ltb_spec n 10) as [Hsmall | Hlarge].
    + exists O. split; [ | split; [ | by left ] ].
      * cbn [fixed_digits]. by rewrite Z.mod_small by lia.
      * change (10 ^ Z.of_nat 1) with 10. lia.
    + destruct (IH (n / 10) (String (digit_char (n mod 10)) tail))
        as (width & Htext & Hupper & Hlower).
      { Z.div_mod_to_equations; lia. }
      { assert (Hhalf : Z.log2 (n / 2) = Z.log2 n - 1).
        { replace (n / 2) with (Z.shiftr n 1)
            by (rewrite Z.shiftr_div_pow2 by lia; reflexivity).
          rewrite Z.log2_shiftr by lia.
          assert (3 <= Z.log2 n) by (apply (Z.log2_le_mono 8 n); lia).
          lia. }
        assert (Z.log2 (n / 10) <= Z.log2 (n / 2)).
        { apply Z.log2_le_mono. Z.div_mod_to_equations; lia. }
        lia. }
      exists (S width). split; [ exact Htext | ].
      rewrite !Nat2Z.inj_succ, !Z.pow_succ_r in * by lia.
      split; [ Z.div_mod_to_equations; lia | right ].
      destruct Hlower as [-> | Hlower].
      * change (10 ^ Z.of_nat 0) with 1. lia.
      * Z.div_mod_to_equations; lia.
Qed.

Lemma natural_numeral (n : Z) :
  0 <= n ->
  exists c tail,
    natural_digits (Z.to_nat (Z.log2 n)) n "" = String c tail
    /\ is_digit c = true /\ Ascii.eqb c "-" = false
    /\ json_integer (String c tail) = true
    /\ read_natural (String c tail) = Some n.
Proof.
  intros Hn.
  destruct (natural_digits_fixed (Z.to_nat (Z.log2 n)) n "" Hn)
    as (width & Htext & Hupper & Hlower).
  { pose proof (Z.log2_nonneg n). lia. }
  rewrite Htext, fixed_digits_split.
  set (d := n / 10 ^ Z.of_nat width).
  assert (Hd : 0 <= d <= 9).
  { subst d. rewrite Nat2Z.inj_succ, Z.pow_succ_r in Hupper by lia.
    assert (0 < 10 ^ Z.of_nat width) by (apply Z.pow_pos_nonneg; lia).
    split; [ apply Z.div_pos; lia | ].
    assert (n / 10 ^ Z.of_nat width < 10); [ | lia ].
    apply Z.div_lt_upper_bound; lia. }
  rewrite (Z.mod_small d 10) by lia.
  destruct (digit_char_spec d Hd) as (Hdigit & Hvalue & _ & Hminus).
  eexists _, _. split; [ reflexivity | ].
  split; [ done | ]. split; [ done | ]. split.
  - cbn [json_integer].
    destruct (Ascii.eqb (digit_char d) "0") eqn:Hzero.
    + destruct Hlower as [-> | Hlower]; [ reflexivity | ].
      assert (1 <= d).
      { subst d. apply Z.div_le_lower_bound; [ | lia ].
        apply Z.pow_pos_nonneg; lia. }
      rewrite digit_char_not_zero in Hzero by lia. done.
    + rewrite Hdigit, skip_digits_fixed. reflexivity.
  - unfold read_natural. rewrite Hdigit.
    rewrite <- (Z.mod_small d 10) at 1 by lia. subst d.
    rewrite <- fixed_digits_split, read_digits_fixed by lia.
    reflexivity.
Qed.

(** Every integer is a Number of the integer host that round-trips. *)
Lemma integer_roundtrips (z : Z) : number_roundtrips (H := integer_host) z.
Proof.
  unfold number_roundtrips. split; [ reflexivity | ].
  cbn [Number_toString StringToNumber integer_host]. unfold integer_numeral.
  destruct (Z.ltb_spec z 0) as [Hneg | Hpos].
  - destruct (natural_numeral (- z)) as (c & tail & -> & _ & _ & Hjson & Hread);
      [ lia | ].
    split.
    + exact Hjson.
    + unfold read_integer. change (Ascii.eqb "-" "-") with true. cbv iota.
      rewrite Hread. cbn. f_equal. lia.
  - destruct (natural_numeral z Hpos)
      as (c & tail & -> & _ & Hminus & Hjson & Hread).
    split.
    + cbn [is_json_number]. by rewrite Hminus.
    + unfold read_integer. by rewrite Hminus.
Qed.

End IntegerNumerals.

(* ------------------------------------------------------------------ *)
(** ** DDL generation *)

Section DDL.
Context `{Host}.

Lemma getDefaultValueSql_outcome (columnName : string) (d : DBFieldWithDefault) :
  getDefaultValueSql columnName d
  = match d with
    | JsonDefault v =>
        if acyclic v then Returns (default_literal d)
        else Exits 0 [invalid_default_message columnName]
    | _ => Returns (default_literal d)
    end.
Proof.
  destruct d as [ s | x | b | s | v ]; try reflexivity.
  unfold getDefaultValueSql, JSON_stringify.
  rewrite SerializeJSONProperty_acyclic.
  destruct (acyclic v); reflexivity.
Qed.

Lemma getModifiers_outcome (columnName : string) (column : DBField) :
  getModifiers columnName column
  = if unserializable column
    then Exits 0 [invalid_default_message columnName]
    else Returns (modifiers_in_order column).
Proof.
  unfold getModifiers, unserializable, modifiers_in_order, default_modifier,
    not_null_modifier, unique_modifier, hasDefault.
  destruct column as [o u k]; cbn [optional unique kind].
  destruct k as [ [d|] | [d|] | [d|] | [d|] | [d|] ]; cbn [fmap option_fmap option_map];
    try rewrite getDefaultValueSql_outcome;
    try (destruct (acyclic d)); destruct o, u; reflexivity.
Qed.

Lemma pushColQueries_outcome (entries : list (string * DBField))
    (colQueries : list string) :
  pushColQueries entries colQueries
  = match first_unserializable entries with
    | Some columnName => Exits 0 [invalid_default_message columnName]
    | None =>
        Returns (colQueries
                 ++ map (fun e => column_clause e.1 e.2 (modifiers_in_order e.2))
                        entries)
    end.
Proof.
  revert colQueries.
  induction entries as [ | [columnName column] entries IH ]; intros colQueries.
  - cbn. by rewrite app_nil_r.
  - cbn [pushColQueries first_unserializable].
    rewrite getModifiers_outcome.
    destruct (unserializable column); [ reflexivity | ].
    cbn [bind]. rewrite IH.
    destruct (first_unserializable entries); [ reflexivity | ].
    by rewrite <- app_assoc.
Qed.

Lemma getCreateTableQuery_outcome (collectionName : string)
    (collection : DBCollection) :
  getCreateTableQuery collectionName collection
  = match first_unserializable (fields collection) with
    | Some columnName => Exits 0 [invalid_default_message columnName]
    | None =>
        Returns
          (create_table collectionName
             (id_clause
              :: map (fun e => column_clause e.1 e.2 (modifiers_in_order e.2))
                     (fields collection)))
    end.
Proof.
  unfold getCreateTableQuery. rewrite pushColQueries_outcome.
  destruct (first_unserializable (fields collection)); [ reflexivity | ].
  cbn [bind app]. unfold create_table. by rewrite !append_assoc.
Qed.

Lemma first_unserializable_In (entries : list (string * DBField))
    (columnName : string) :
  first_unserializable entries = Some columnName ->
  exists column, In (columnName, column) entries /\ unserializable column = true.
Proof.
  induction entries as [ | [n c] entries IH ]; [ discriminate | ].
  cbn [first_unserializable]. destruct (unserializable c) eqn:Hc.
  - intros [= ->]. exists c. split; [ by left | done ].
  - intros Hfirst. destruct (IH Hfirst) as (c' & Hin & Hc').
    exists c'. split; [ by right | done ].
Qed.

Lemma In_first_unserializable (entries : list (string * DBField))
    (columnName : string) (column : DBField) :
  In (columnName, column) entries -> unserializable column = true ->
  exists first, first_unserializable entries = Some first.
Proof.
  induction entries as [ | [n c] entries IH ]; [ intros [] | ].
  intros [ [= -> ->] | Hin ] Hc; cbn [first_unserializable].
  - rewrite Hc. by eexists.
  - destruct (unserializable c); [ by eexists | by apply IH ].
Qed.

Lemma unserializable_spec (column : DBField) :
  unserializable column = true
  <-> exists v, kind column = JsonField (Some v)
                /\ JSON_stringify v = Throws circular.
Proof.
  unfold unserializable, JSON_stringify. split.
  - destruct (kind column) as [ | | | | [v|] ]; try discriminate.
    intros Hv. exists v. split; [ done | ].
    rewrite SerializeJSONProperty_acyclic. by destruct (acyclic v).
  - intros (v & -> & Hv). rewrite SerializeJSONProperty_acyclic in Hv.
    by destruct (acyclic v).
Qed.

Lemma JSON_stringify_throws (v : JSValue) :
  is_thrown (JSON_stringify v) -> JSON_stringify v = Throws circular.
Proof.
  unfold JSON_stringify. rewrite SerializeJSONProperty_acyclic.
  by destruct (acyclic v).
Qed.


Lemma first_unserializable_None (entries : list (string * DBField)) :
  first_unserializable entries = None ->
  Forall (fun e => unserializable e.2 = false) entries.
Proof.
  induction entries as [ | [n c] entries IH ]; [ constructor | ].
  cbn [first_unserializable]. destruct (unserializable c) eqn:Hc; [ done | ].
  intros Hnone. constructor; [ done | by apply IH ].
Qed.

Lemma default_modifier_spec (columnName : string) (column : DBField) :
  unserializable column = false ->
  match hasDefault column with
  | Some d =>
      exists literal,
        getDefaultValueSql columnName d = Returns literal
        /\ default_modifier column = " DEFAULT " +:+ literal
  | None => default_modifier column = ""
  end.
Proof.
  unfold unserializable, default_modifier, hasDefault.
  destruct (kind column) as [ [d|] | [d|] | [d|] | [d|] | [d|] ];
    cbn [fmap option_fmap option_map]; intros Hc; try done;
    rewrite getDefaultValueSql_outcome; [ by eexists .. | ].
  destruct (acyclic d); [ by eexists | done ].
Qed.

(** C5: in a generated statement the clause of every field is its
    escaped name, a space and its physical type, followed by [NOT NULL]
    exactly when the field is not optional, then [UNIQUE] exactly when
    it is unique, then [DEFAULT] and the literal exactly when it has a
    default; a field that is optional, not unique and without default
    gets no modifier. *)
Theorem modifiers_fixed_order (collectionName : string)
    (collection : DBCollection) (statement : string) :
  getCreateTableQuery collectionName collection = Returns statement ->
  (exists clauses,
    statement = create_table collectionName (id_clause :: clauses)
    /\ Forall2
         (fun entry clause =>
            exists default_part,
              clause
              = sqlite.escapeName entry.1 +:+ " "
                +:+ schemaTypeToSqlType (type entry.2)
                +:+ (if optional entry.2 then "" else " NOT NULL")
                +:+ (if unique entry.2 then " UNIQUE" else "")
                +:+ default_part
              /\ match hasDefault entry.2 with
                 | Some d =>
                     exists literal,
                       getDefaultValueSql entry.1 d = Returns literal
                       /\ default_part = " DEFAULT " +:+ literal
                 | None => default_part = ""
                 end)
         (fields collection) clauses)
  /\ (forall columnName column,
        optional column = true -> unique column = false ->
        hasDefault column = None ->
        getModifiers columnName column = Returns "").
Proof.
  intros Hreturns. split.
  - rewrite getCreateTableQuery_outcome in Hreturns.
    destruct (first_unserializable (fields collection)) eqn:Hfirst; [ done | ].
    injection Hreturns as <-. eexists. split; [ reflexivity | ].
    apply first_unserializable_None in Hfirst.
    induction Hfirst as [ | [n c] entries Hc _ IH ]; cbn [map]; constructor;
      [ | exact IH ].
    exists (default_modifier c). split; [ reflexivity | ].
    by apply default_modifier_spec.
  - intros columnName [o u k]; cbn [optional unique]. intros -> -> Hnone.
    unfold getModifiers. rewrite Hnone. reflexivity.
Qed.


Lemma read_literal_body_escaped (s rest : string) :
  begins_with squote rest = false ->
  read_literal_body (sqlite.double_quotes s +:+ String squote rest)
  = Some (s, rest).
Proof.
  intros Hrest. induction s as [ | c s IH ].
  - rewrite append_nil_l. cbn [sqlite.double_quotes read_literal_body].
    rewrite Ascii.eqb_refl. destruct rest as [ | c' rest' ]; [ done | ].
    cbn [begins_with] in Hrest. rewrite Ascii.eqb_sym in Hrest.
    by rewrite Hrest.
  - cbn [sqlite.double_quotes]. destruct (Ascii.eqb c squote) eqn:Hc.
    + apply Ascii.eqb_eq in Hc as ->.
      rewrite !append_cons. cbn [read_literal_body].
      rewrite Ascii.eqb_refl. by rewrite IH.
    + rewrite append_cons. cbn [read_literal_body]. by rewrite Hc, IH.
Qed.

(** C4: the literal after [DEFAULT] is [TRUE] or [FALSE] for a
    boolean, the decimal rendering of the number, bare, for a number,
    and the single-quoted string with every quote of the text doubled
    for a text, so that an SQL lexer reads back the text and stops
    where the literal ends; for a date it is [CURRENT_TIMESTAMP] when
    the default is ["now"] and the escaped string otherwise. *)
Theorem default_literals (columnName : string) :
  (forall b : bool,
      getDefaultValueSql columnName (BooleanDefault b)
      = Returns (if b then "TRUE" else "FALSE"))
  /\ (forall x : number,
         getDefaultValueSql columnName (NumberDefault x)
         = Returns (Number_toString x))
  /\ (forall s : string,
         getDefaultValueSql columnName (TextDefault s)
         = Returns (sqlite.escapeString s))
  /\ getDefaultValueSql columnName (DateDefault "now")
     = Returns "CURRENT_TIMESTAMP"
  /\ (forall s : string,
         s <> "now" ->
         getDefaultValueSql columnName (DateDefault s)
         = Returns (sqlite.escapeString s))
  /\ (forall s rest : string,
         begins_with squote rest = false ->
         read_string_literal (sqlite.escapeString s +:+ rest) = Some (s, rest)).
Proof.
  repeat split; try reflexivity.
  - intros s Hs. cbn [getDefaultValueSql].
    destruct (String.eqb_spec s "now"); [ done | reflexivity ].
  - intros s rest Hrest. unfold sqlite.escapeString.
    rewrite append_cons, append_assoc, append_cons, append_nil_l.
    cbn [read_string_literal]. rewrite Ascii.eqb_refl.
    by apply read_literal_body_escaped.
Qed.

End DDL.

(* ------------------------------------------------------------------ *)
(** ** Scenarios *)

(** C3: the statement generated for the [posts] collection. *)
Theorem posts_create_table :
  getCreateTableQuery "posts" posts = Returns posts_statement.
Proof. vm_compute. reflexivity. Qed.



(** C2 at a collection named [order]: the statement that drops the
    table carries the bare name, the one that creates it the escaped
    name. *)
Theorem drop_statement_not_escaped :
  createDbTables [] order_collections
  = Returns
      [ sql_raw "DROP TABLE IF EXISTS order";
        sql_raw ("CREATE TABLE " +:+ quoted "order" +:+ " ("
                 +:+ quoted "id" +:+ " text PRIMARY KEY, "
                 +:+ quoted "total" +:+ " integer NOT NULL)") ].
Proof. vm_compute. reflexivity. Qed.

Lemma modifiers_fixed_order_witness :
  (exists clauses,
    posts_statement = create_table "posts" (id_clause :: clauses)
    /\ Forall2
         (fun entry clause =>
            exists default_part,
              clause
              = sqlite.escapeName entry.1 +:+ " "
                +:+ schemaTypeToSqlType (type entry.2)
                +:+ (if optional entry.2 then "" else " NOT NULL")
                +:+ (if unique entry.2 then " UNIQUE" else "")
                +:+ default_part
              /\ match hasDefault entry.2 with
                 | Some d =>
                     exists literal,
                       getDefaultValueSql entry.1 d = Returns literal
                       /\ default_part = " DEFAULT " +:+ literal
                 | None => default_part = ""
                 end)
         (fields posts) clauses)
  /\ (forall columnName column,
        optional column = true -> unique column = false ->
        hasDefault column = None ->
        getModifiers columnName column = Returns "").
Proof.
  apply (modifiers_fixed_order "posts" posts posts_statement).
  vm_compute. reflexivity.
Defined.

Lemma default_literals_witness :
  getDefaultValueSql "createdAt" (DateDefault "2024-01-01T00:00:00.000Z")
  = Returns (sqlite.escapeString "2024-01-01T00:00:00.000Z")
  /\ read_string_literal (sqlite.escapeString "it's" +:+ " UNIQUE")
     = Some ("it's", " UNIQUE").
Proof.
  destruct (default_literals "createdAt") as (_ & _ & _ & _ & Hdate & Htext).
  split.
  - apply Hdate. discriminate.
  - apply Htext. reflexivity.
Defined.

(* ------------------------------------------------------------------ *)
(** ** The column model *)

Section ColumnModel.
Context `{Host}.

Lemma constrained_config (field : DBField) (c : ColumnBuilder) :
  config_columnType (constrained field c) = config_columnType c
  /\ config_default (constrained field c) = config_default c
  /\ config_notNull (constrained field c)
     = negb (optional field) || config_notNull c
  /\ config_isUnique (constrained field c) = unique field || config_isUnique c.
Proof. unfold constrained. by destruct (optional field), (unique field). Qed.


Lemma assignColumns_mapped (entries : list (string * DBField))
    (columns : nat) (mode : bool) :
  forall (σ : gmap nat (gmap string ColumnBuilder))
         (properties : gmap string ColumnBuilder),
    σ !! columns = Some properties ->
    exists properties',
      (assignColumns entries columns mode σ).2 = <[columns := properties']> σ
      /\ match mapped_columns entries mode properties with
         | Returns p =>
             (assignColumns entries columns mode σ).1 = Returns tt
             /\ properties' = p
         | Throws e => (assignColumns entries columns mode σ).1 = Throws e
         | Exits code console =>
             (assignColumns entries columns mode σ).1 = Exits code console
         end.
Proof.
  unfold Store.
  induction entries as [ | [fieldName f] entries IH ]; intros σ properties Hσ.
  - exists properties. cbn [assignColumns mapped_columns fst snd].
    by rewrite insert_id.
  - cbn [assignColumns mapped_columns].
    destruct (columnMapper fieldName f mode) as [c | e | code console];
      cbn [bind].
    + unfold set_property, Store. rewrite Hσ.
      destruct (IH (<[columns := <[fieldName := c]> properties]> σ)
                  (<[fieldName := c]> properties)) as (p' & Hstore & Hout).
      { apply lookup_insert_eq. }
      exists p'. split; [ | exact Hout ].
      rewrite Hstore. apply insert_insert_eq.
    + exists properties. cbn [fst snd]. by rewrite insert_id.
    + exists properties. cbn [fst snd]. by rewrite insert_id.
Qed.

Lemma mapped_columns_dom (entries : list (string * DBField)) (mode : bool) :
  forall properties p,
    mapped_columns entries mode properties = Returns p ->
    dom p = dom properties ∪ list_to_set (map fst entries).
Proof.
  induction entries as [ | [fieldName f] entries IH ]; intros properties p.
  - cbn. intros [= <-]. set_solver.
  - cbn [mapped_columns map fst list_to_set].
    destruct (columnMapper fieldName f mode) as [c | e | code console];
      cbn [bind]; try discriminate.
    intros Hp. rewrite (IH _ _ Hp), dom_insert_L. set_solver.
Qed.

Lemma mapped_columns_other (entries : list (string * DBField)) (mode : bool)
    (key : string) :
  ~ In key (map fst entries) ->
  forall properties p,
    mapped_columns entries mode properties = Returns p ->
    p !! key = properties !! key.
Proof.
  induction entries as [ | [fieldName f] entries IH ]; intros Hkey properties p.
  - cbn. by intros [= <-].
  - cbn [mapped_columns]. cbn [map fst In] in Hkey.
    destruct (columnMapper fieldName f mode) as [c | e | code console];
      cbn [bind]; try discriminate.
    intros Hp. rewrite (IH ltac:(tauto) _ _ Hp).
    apply lookup_insert_ne. tauto.
Qed.

Lemma mapped_columns_field (entries : list (string * DBField)) (mode : bool)
    (fieldName : string) (f : DBField) :
  List.NoDup (map fst entries) -> In (fieldName, f) entries ->
  forall properties p,
    mapped_columns entries mode properties = Returns p ->
    exists c, columnMapper fieldName f mode = Returns c /\ p !! fieldName = Some c.
Proof.
  induction entries as [ | [n g] entries IH ]; intros Hnodup Hin properties p;
    [ destruct Hin | ].
  cbn [mapped_columns]. cbn [map fst] in Hnodup.
  apply List.NoDup_cons_iff in Hnodup as [Hfresh Hnodup].
  destruct Hin as [ [= -> ->] | Hin ].
  - destruct (columnMapper fieldName f mode) as [c | e | code console];
      cbn [bind]; try discriminate.
    intros Hp. exists c. split; [ done | ].
    rewrite (mapped_columns_other _ _ _ Hfresh _ _ Hp).
    apply lookup_insert_eq.
  - destruct (columnMapper n g mode) as [c | e | code console];
      cbn [bind]; try discriminate.
    intros Hp. by apply (IH Hnodup Hin _ _ Hp).
Qed.

Lemma collectionToTable_outcome (tableName' : string)
    (collection : DBCollection) (isJsonSerializable : bool) (σ : Store) :
  σ !! initialColumns = Some initial_record ->
  let result := collectionToTable tableName' collection isJsonSerializable σ in
  result.2 !! initialColumns = Some initial_record
  /\ (forall object, object ∈ dom σ -> result.2 !! object = σ !! object)
  /\ match result.1 with
     | Returns table =>
         tableName table = tableName'
         /\ dom (tableColumns table)
            = {["id"]} ∪ list_to_set (field_names collection)
         /\ (forall fieldName f,
               List.NoDup (field_names collection) ->
               In (fieldName, f) (fields collection) ->
               exists c,
                 columnMapper fieldName f isJsonSerializable = Returns c
                 /\ tableColumns table !! fieldName = Some c)
         /\ (~ In "id" (field_names collection) ->
             tableColumns table !! "id" = Some id_column)
     | _ => True
     end.
Proof.
  intros Hinit result. subst result.
  unfold collectionToTable, spread, Store in *. rewrite Hinit.
  change (default ∅ (Some initial_record)) with initial_record.
  set (columns := fresh (dom σ)).
  assert (Hfresh : columns ∉ dom σ) by apply is_fresh.
  assert (Hne : forall object, object ∈ dom σ -> columns <> object).
  { intros object Hobject ->. by apply Hfresh. }
  destruct (assignColumns_mapped (fields collection) columns
              isJsonSerializable (<[columns := initial_record]> σ)
              initial_record) as (p' & Hstore & Hout).
  { unfold Store. apply lookup_insert_eq. }
  destruct (assignColumns (fields collection) columns isJsonSerializable
              (<[columns := initial_record]> σ)) as [outcome σ'].
  cbn [fst snd] in Hstore, Hout. subst σ'.
  rewrite insert_insert_eq.
  assert (Hframe : forall object,
             object ∈ dom σ -> <[columns := p']> σ !! object = σ !! object).
  { intros object Hobject. apply lookup_insert_ne. by apply Hne. }
  destruct (mapped_columns (fields collection) isJsonSerializable
              initial_record) as [p | e | code console] eqn:Hmapped.
  - destruct Hout as [-> ->]. cbn [fst snd].
    split; [ rewrite Hframe; [ done | by apply elem_of_dom ] | ].
    split; [ exact Hframe | ].
    unfold sqliteTable, Store. cbn [tableName tableColumns].
    rewrite lookup_insert_eq.
    change (default ∅ (Some p)) with p.
    split; [ done | ]. split; [ | split ].
    + rewrite (mapped_columns_dom _ _ _ _ Hmapped).
      unfold initial_record, field_names. by rewrite dom_singleton_L.
    + intros fieldName f Hnodup Hin.
      by apply (mapped_columns_field _ _ _ _ Hnodup Hin _ _ Hmapped).
    + intros Hid.
      rewrite (mapped_columns_other _ _ _ Hid _ _ Hmapped).
      apply lookup_singleton_eq.
  - rewrite Hout. cbn [fst snd].
    split; [ rewrite Hframe; [ done | by apply elem_of_dom ] | ].
    split; [ exact Hframe | done ].
  - rewrite Hout. cbn [fst snd].
    split; [ rewrite Hframe; [ done | by apply elem_of_dom ] | ].
    split; [ exact Hframe | done ].
Qed.


Lemma nanoid_chars_length (size : nat) (source : nat -> N) (i : nat) :
  String.length (nanoid_chars size source i) = size.
Proof.
  revert i. induction size as [ | size IH ]; intros i; [ done | ].
  cbn [nanoid_chars String.length]. by rewrite IH.
Qed.


End ColumnModel.



(* ------------------------------------------------------------------ *)
(** ** The codecs of the column model *)

Section CodecRoundTrip.
Context `{Host}.


End CodecRoundTrip.



(* ================================================================== *)
(** * Further properties *)

(** ** Setting up the tables *)

Section SetupQueries.
Context `{Host}.

Lemma pushSetupQueries_outcome (collections : DBCollections)
    (setupQueries : list SQL) :
  pushSetupQueries collections setupQueries
  = match first_failing collections with
    | Some columnName => Exits 0 [invalid_default_message columnName]
    | None =>
        Returns
          (setupQueries
           ++ setup_pairs collections
                (map (fun e =>
                        create_table e.1
                          (id_clause
                           :: map (fun f => column_clause f.1 f.2
                                              (modifiers_in_order f.2))
                                  (fields e.2)))
                     collections))
    end.
Proof.
  revert setupQueries.
  induction collections as [ | [name collection] collections IH ];
    intros setupQueries.
  - cbn. by rewrite app_nil_r.
  - cbn [pushSetupQueries first_failing map setup_pairs fst snd].
    rewrite getCreateTableQuery_outcome.
    destruct (first_unserializable (fields collection)); [ reflexivity | ].
    cbn [bind]. rewrite IH.
    destruct (first_failing collections); [ reflexivity | ].
    by rewrite <- app_assoc.
Qed.

Lemma run_all (setupQueries db : list SQL) :
  fold_left (fun db q => db ++ [q]) setupQueries db = db ++ setupQueries.
Proof.
  revert db. induction setupQueries as [ | q l IH ]; intros db.
  - cbn. by rewrite app_nil_r.
  - cbn [fold_left]. rewrite IH, <- app_assoc. reflexivity.
Qed.

Lemma first_failing_None (collections : DBCollections) :
  first_failing collections = None ->
  Forall (fun e => first_unserializable (fields e.2) = None) collections.
Proof.
  induction collections as [ | [name collection] collections IH ];
    [ constructor | ].
  cbn [first_failing].
  destruct (first_unserializable (fields collection)) eqn:Hc; [ done | ].
  intros Hnone. constructor; [ done | by apply IH ].
Qed.

Lemma first_failing_Some (collections : DBCollections) (columnName : string) :
  first_failing collections = Some columnName ->
  exists e, In e collections
            /\ first_unserializable (fields e.2) = Some columnName.
Proof.
  induction collections as [ | [name collection] collections IH ];
    [ discriminate | ].
  cbn [first_failing].
  destruct (first_unserializable (fields collection)) eqn:Hc.
  - intros [= ->]. exists (name, collection). split; [ by left | done ].
  - intros Hsome. destruct (IH Hsome) as (e & Hin & He).
    exists e. split; [ by right | done ].
Qed.

Lemma setup_pairs_length (collections : DBCollections) :
  forall createTexts,
    length createTexts = length collections ->
    length (setup_pairs collections createTexts) = 2 * length collections.
Proof.
  induction collections as [ | [name collection] collections IH ];
    intros [ | text createTexts ] Hlength; try done.
  cbn [setup_pairs setup_pair app length]. cbn [length] in Hlength.
  rewrite IH by lia. lia.
Qed.



End SetupQueries.

(** ** The column model and the DDL side by side *)

Section ModelAndDDL.
Context `{Host}.

Lemma constrained_rest (f : DBField) (c : ColumnBuilder) :
  config_name (constrained f c) = config_name c
  /\ config_hasDefault (constrained f c) = config_hasDefault c
  /\ config_primaryKey (constrained f c) = config_primaryKey c
  /\ config_defaultFn (constrained f c) = config_defaultFn c.
Proof. unfold constrained. by destruct (optional f), (unique f). Qed.

(** A column that [columnMapper] returns is a fresh builder of the
    field's name, given its default and then constrained. *)
Lemma columnMapper_shape (fieldName : string) (f : DBField) (mode : bool)
    (c : ColumnBuilder) :
  columnMapper fieldName f mode = Returns c ->
  exists base,
    c = constrained f base
    /\ config_name base = fieldName
    /\ config_notNull base = false
    /\ config_isUnique base = false
    /\ config_primaryKey base = false
    /\ config_defaultFn base = None
    /\ getSQLType (config_columnType base) = schemaTypeToSqlType (type f)
    /\ config_hasDefault base = match hasDefault f with Some _ => true | None => false end
    /\ (forall fragment,
          config_default base = Some (DefaultSql fragment) ->
          hasRuntimeDefault f = true /\ fragment = "CURRENT_TIMESTAMP").
Proof.
  destruct f as [o u k]. unfold columnMapper. cbn [kind].
  destruct k as [ [d|] | [d|] | [d|] | [d|] | [d|] ]; cbn [with_default];
    try (cbn [bind]; intros [= <-]; eexists; split; [ reflexivity | ];
         by repeat split).
  - destruct mode.
    + cbn [bind]. intros [= <-]. eexists. split; [ reflexivity | ].
      repeat split; try done; cbn [hasRuntimeDefault kind] in *;
        destruct (String.eqb d "now"); cbn in *; congruence.
    + destruct (String.eqb d "now") eqn:Hnow.
      * cbn [bind]. intros [= <-]. eexists. split; [ reflexivity | ].
        repeat split; try done; cbn in *; congruence.
      * unfold z_coerce_date_parse. destruct (new_Date d); [ | done ].
        cbn [bind]. intros [= <-]. eexists. split; [ reflexivity | ].
        by repeat split.
  - destruct mode; cbn [bind]; intros [= <-]; eexists;
      (split; [ reflexivity | ]); by repeat split.
Qed.

(** X3: the column of the model and the clause of the statement give a
    field the same physical type, in both modes. *)
Theorem model_type_agrees_with_ddl (fieldName : string) (f : DBField)
    (mode : bool) (c : ColumnBuilder) :
  columnMapper fieldName f mode = Returns c ->
  getSQLType (config_columnType c) = schemaTypeToSqlType (type f).
Proof.
  intros Hc.
  destruct (columnMapper_shape _ _ _ _ Hc) as (base & -> & _ & _ & _ & _ & _ & Ht & _).
  by destruct (constrained_config f base) as (-> & _).
Qed.

(** X4: the column of the model carries the constraints that the
    modifiers of the clause spell out: it is not null exactly when the
    clause says [NOT NULL], unique exactly when it says [UNIQUE], and
    has a default exactly when something follows; it bears the name of
    the field, is no primary key and has no insert-time default
    function. *)
Theorem model_constraints_agree_with_ddl (fieldName : string) (f : DBField)
    (mode : bool) (c : ColumnBuilder) :
  columnMapper fieldName f mode = Returns c ->
  config_name c = fieldName
  /\ config_notNull c = negb (optional f)
  /\ config_isUnique c = unique f
  /\ config_hasDefault c = match hasDefault f with Some _ => true | None => false end
  /\ config_primaryKey c = false
  /\ config_defaultFn c = None
  /\ (forall modifiers,
        getModifiers fieldName f = Returns modifiers ->
        exists rest,
          modifiers
          = (if config_notNull c then " NOT NULL" else "")
            +:+ (if config_isUnique c then " UNIQUE" else "") +:+ rest
          /\ (rest = "" <-> config_hasDefault c = false)).
Proof.
  intros Hc.
  destruct (columnMapper_shape _ _ _ _ Hc)
    as (base & -> & Hname & Hnn & Huq & Hpk & Hfn & _ & Hdef & _).
  destruct (constrained_config f base) as (_ & _ & -> & ->).
  destruct (constrained_rest f base) as (-> & -> & -> & ->).
  rewrite Hnn, Huq, orb_false_r, orb_false_r.
  repeat split; try done.
  intros modifiers. rewrite getModifiers_outcome.
  destruct (unserializable f); [ done | ]. intros [= <-].
  exists (default_modifier f). split.
  - unfold modifiers_in_order, not_null_modifier, unique_modifier.
    by destruct (optional f), (unique f).
  - rewrite Hdef. unfold default_modifier.
    destruct (hasDefault f); split; done.
Qed.

Lemma columnMapper_serializable (fieldName : string) (f : DBField) :
  exists c, columnMapper fieldName f true = Returns c.
Proof.
  destruct f as [o u k]. unfold columnMapper. cbn [kind].
  destruct k as [ d | d | d | [d|] | d ]; cbn [bind]; by eexists.
Qed.

(** X5: in serialisable mode [columnMapper] returns a column for every
    field, whatever its default; in codec mode it returns one or
    throws the error of zod, and throws exactly for a date field whose
    default is neither ["now"] nor a string that denotes a date.  It
    never ends the process: a [json] default that cannot be serialised
    is attached as it is. *)
Theorem columnMapper_failures (fieldName : string) (f : DBField) :
  (exists c, columnMapper fieldName f true = Returns c)
  /\ match columnMapper fieldName f false with
     | Returns _ =>
         forall value,
           kind f = DateField (Some value) -> value <> "now" ->
           exists t, new_Date value = ValidDate t
     | Throws e =>
         e = ZodError "Invalid date"
         /\ exists value,
              kind f = DateField (Some value) /\ value <> "now"
              /\ new_Date value = InvalidDate
     | Exits _ _ => False
     end.
Proof.
  split; [ apply columnMapper_serializable | ].
  destruct f as [o u k]. unfold columnMapper. cbn [kind].
  - destruct k as [ d | d | d | [d|] | d ]; cbn [bind]; try done.
    destruct (String.eqb_spec d "now") as [-> | Hnow].
    + cbn [bind]. by intros value [= <-].
    + unfold z_coerce_date_parse. destruct (new_Date d) as [t|] eqn:Hd;
        cbn [bind].
      * intros value [= <-] _. by exists t.
      * split; [ done | ]. by exists d.
Qed.

Lemma mapped_columns_serializable (entries : list (string * DBField)) :
  forall properties,
    exists p, mapped_columns entries true properties = Returns p.
Proof.
  induction entries as [ | [fieldName f] entries IH ]; intros properties.
  - by eexists.
  - cbn [mapped_columns].
    destruct (columnMapper_serializable fieldName f) as [c ->].
    cbn [bind]. apply IH.
Qed.

(** What [collectionToTable] returns: the table of the columns mapped
    over a copy of the initial record. *)
Lemma collectionToTable_result (name' : string) (collection : DBCollection)
    (mode : bool) (σ : Store) :
  σ !! initialColumns = Some initial_record ->
  (collectionToTable name' collection mode σ).1
  = table_of name' (mapped_columns (fields collection) mode initial_record).
Proof.
  intros Hinit. unfold collectionToTable, spread, Store in *. rewrite Hinit.
  change (default ∅ (Some initial_record)) with initial_record.
  set (columns := fresh (dom σ)).
  destruct (assignColumns_mapped (fields collection) columns mode
              (<[columns := initial_record]> σ) initial_record)
    as (p' & Hstore & Hout).
  { unfold Store. apply lookup_insert_eq. }
  destruct (assignColumns (fields collection) columns mode
              (<[columns := initial_record]> σ)) as [outcome σ'].
  cbn [fst snd] in Hstore, Hout. subst σ'.
  destruct (mapped_columns (fields collection) mode initial_record)
    as [p | e | code console].
  - destruct Hout as [-> ->]. cbn [fst table_of]. unfold sqliteTable, Store.
    rewrite insert_insert_eq, lookup_insert_eq. reflexivity.
  - by rewrite Hout.
  - by rewrite Hout.
Qed.

(** X6: what [collectionToTable] returns does not depend on the calls
    made before it: on any store in which [initialColumns] is intact
    it gives the table it gives when the module is freshly loaded, and
    so it does after any other call of [collectionToTable]. *)
Theorem collectionToTable_independent (name' : string)
    (collection : DBCollection) (mode : bool) (σ : Store) :
  σ !! initialColumns = Some initial_record ->
  (collectionToTable name' collection mode σ).1
  = (collectionToTable name' collection mode module_store).1
  /\ forall name'' collection' mode',
       (collectionToTable name' collection mode
          (collectionToTable name'' collection' mode' σ).2).1
       = (collectionToTable name' collection mode module_store).1.
Proof.
  intros Hinit.
  assert (Hfresh : (collectionToTable name' collection mode module_store).1
                   = table_of name'
                       (mapped_columns (fields collection) mode initial_record)).
  { by apply collectionToTable_result. }
  split.
  - by rewrite Hfresh, collectionToTable_result.
  - intros name'' collection' mode'.
    rewrite Hfresh. apply collectionToTable_result.
    by destruct (collectionToTable_outcome name'' collection' mode' σ Hinit)
      as [Hkept _].
Qed.

(** X7: in serialisable mode [collectionToTable] returns a table for
    every collection, also for one whose [json] default cannot be
    serialised and for which no statement is generated. *)
Theorem collectionToTable_serializable_total (name' : string)
    (collection : DBCollection) (σ : Store) :
  σ !! initialColumns = Some initial_record ->
  exists table,
    (collectionToTable name' collection true σ).1 = Returns table
    /\ tableName table = name'.
Proof.
  intros Hinit. rewrite collectionToTable_result by done.
  destruct (mapped_columns_serializable (fields collection) initial_record)
    as [p ->].
  by eexists.
Qed.

(** X8: a field named [id] takes the place of the implicit column in
    the table: the column under [id] is the one [columnMapper] builds
    for the field, which is no primary key and has no generated
    default, while the statement keeps the implicit [id] clause and
    has a second clause for the field. *)
Theorem id_field_replaces_implicit_column (name' : string)
    (collection : DBCollection) (mode : bool) (σ : Store) (f : DBField)
    (table : SQLiteTable) :
  σ !! initialColumns = Some initial_record ->
  List.NoDup (field_names collection) ->
  In ("id", f) (fields collection) ->
  (collectionToTable name' collection mode σ).1 = Returns table ->
  (exists c,
      columnMapper "id" f mode = Returns c
      /\ tableColumns table !! "id" = Some c
      /\ config_primaryKey c = false
      /\ config_defaultFn c = None
      /\ c <> id_column)
  /\ forall statement,
       getCreateTableQuery name' collection = Returns statement ->
       exists clauses modifiers,
         statement = create_table name' (id_clause :: clauses)
         /\ getModifiers "id" f = Returns modifiers
         /\ In (column_clause "id" f modifiers) clauses.
Proof.
  intros Hinit Hnodup Hin Htable. split.
  - pose proof (collectionToTable_outcome name' collection mode σ Hinit)
      as Hspec.
    cbn zeta in Hspec. rewrite Htable in Hspec.
    destruct Hspec as (_ & _ & _ & _ & Hfield & _).
    destruct (Hfield "id" f Hnodup Hin) as (c & Hc & Hlookup).
    exists c. split; [ done | ]. split; [ done | ].
    destruct (columnMapper_shape _ _ _ _ Hc)
      as (base & -> & _ & _ & _ & Hpk & Hfn & _).
    destruct (constrained_rest f base) as (_ & _ & Hpk' & Hfn').
    rewrite Hpk in Hpk'. rewrite Hfn in Hfn'.
    repeat split; try done.
    intros Heq. rewrite Heq in Hpk'. discriminate Hpk'.
  - intros statement. rewrite getCreateTableQuery_outcome.
    destruct (first_unserializable (fields collection)) eqn:Hfirst;
      [ done | ].
    intros [= <-].
    apply first_unserializable_None in Hfirst.
    rewrite Forall_forall in Hfirst.
    eexists _, (modifiers_in_order f). split; [ reflexivity | ]. split.
    + rewrite getModifiers_outcome.
      pose proof (Hfirst ("id", f) ltac:(by apply list_elem_of_In)) as Hf.
      cbn [snd] in Hf. by rewrite Hf.
    + apply (in_map (fun e => column_clause e.1 e.2 (modifiers_in_order e.2))
               _ ("id", f)), Hin.
Qed.

End ModelAndDDL.

(** ** Identifiers *)

Lemma below_64 (P : N -> bool) :
  forallb P (map N.of_nat (seq 0 64)) = true ->
  forall k, (k < 64)%N -> P k = true.
Proof.
  intros Hall k Hk. rewrite forallb_forall in Hall. apply Hall.
  rewrite <- (N2Nat.id k). apply in_map, in_seq. lia.
Qed.

Lemma alphabet_char_url_safe (byte : N) : url_safe (alphabet_char byte) = true.
Proof.
  unfold alphabet_char.
  apply (below_64
           (fun k => url_safe
                       match String.get (N.to_nat k) urlAlphabet with
                       | Some c => c
                       | None => "u"%char
                       end)).
  - by vm_compute.
  - change 63%N with (N.ones 6). rewrite N.land_ones.
    by apply N.mod_lt.
Qed.

Lemma nanoid_chars_url_safe (size : nat) (source : nat -> N) (i : nat) :
  all_chars url_safe (nanoid_chars size source i) = true.
Proof.
  revert i. induction size as [ | size IH ]; intros i; [ done | ].
  cbn [nanoid_chars all_chars]. by rewrite alphabet_char_url_safe, IH.
Qed.

Lemma nanoid_chars_ext (size : nat) (source source' : nat -> N) :
  forall i,
    (forall j, i <= j < i + size -> source' j = source j) ->
    nanoid_chars size source' i = nanoid_chars size source i.
Proof.
  induction size as [ | size IH ]; intros i Hsame; [ done | ].
  cbn [nanoid_chars]. rewrite Hsame by lia. f_equal.
  apply IH. intros j Hj. apply Hsame. lia.
Qed.

(** X9: an identifier of [generateId] is made of letters, digits, [_]
    and [-] only; it is determined by the twelve random bytes at the
    pool offset, which the call leaves behind it, so that the next
    identifier is made of the twelve bytes that follow. *)
Theorem generateId_url_safe (r : Random) :
  all_chars url_safe (generateId r).1 = true
  /\ poolOffset (generateId r).2 = poolOffset r + 12
  /\ bytes (generateId r).2 = bytes r
  /\ (forall r',
        poolOffset r' = poolOffset r ->
        (forall j, poolOffset r <= j < poolOffset r + 12 ->
                   bytes r' j = bytes r j) ->
        (generateId r').1 = (generateId r).1)
  /\ (generateId (generateId r).2).1
     = nanoid_chars 12 (bytes r) (poolOffset r + 12).
Proof.
  split; [ apply nanoid_chars_url_safe | ].
  split; [ reflexivity | ]. split; [ reflexivity | ].
  split; [ | reflexivity ].
  intros r' Hoffset Hsame. unfold generateId, nanoid. cbn [fst].
  rewrite Hoffset. by apply nanoid_chars_ext.
Qed.

(** ** Quoted identifiers *)

Lemma read_identifier_body_plain (name rest : string) :
  has_char dquote_char name = false ->
  begins_with dquote_char rest = false ->
  read_identifier_body (name +:+ String dquote_char rest) = Some (name, rest).
Proof.
  intros Hname Hrest. induction name as [ | c name IH ].
  - rewrite append_nil_l. cbn [read_identifier_body].
    rewrite Ascii.eqb_refl. destruct rest as [ | c' rest' ]; [ done | ].
    cbn [begins_with] in Hrest. rewrite Ascii.eqb_sym in Hrest.
    by rewrite Hrest.
  - cbn [has_char] in Hname. apply orb_false_iff in Hname as [Hc Hname].
    rewrite append_cons. cbn [read_identifier_body].
    rewrite Ascii.eqb_sym in Hc. by rewrite Hc, IH.
Qed.

Lemma dquote_append (s : string) : dquote +:+ s = String dquote_char s.
Proof. reflexivity. Qed.

Lemma escapeName_append (name rest : string) :
  sqlite.escapeName name +:+ rest
  = String dquote_char (name +:+ String dquote_char rest).
Proof.
  unfold sqlite.escapeName, dquote. rewrite !append_assoc. reflexivity.
Qed.

Section QuotedNames.
Context `{Host}.

(** X10: when neither the name of the collection nor the name of a
    field holds a double quote, an SQL lexer reads the name of the
    table after [CREATE TABLE], and the name of the field at the head
    of its clause, exactly as they were given: reserved words, spaces
    and single quotes in names are kept. *)
Theorem names_without_quote_read_back (collectionName : string)
    (collection : DBCollection) (statement : string) :
  getCreateTableQuery collectionName collection = Returns statement ->
  (has_char dquote_char collectionName = false ->
   exists after rest,
     strip_prefix "CREATE TABLE " statement = Some after
     /\ read_quoted_identifier after = Some (collectionName, String " " rest))
  /\ exists clauses,
       statement = create_table collectionName (id_clause :: clauses)
       /\ Forall2
            (fun entry clause =>
               has_char dquote_char entry.1 = false ->
               exists rest,
                 read_quoted_identifier clause
                 = Some (entry.1, String " " rest))
            (fields collection) clauses.
Proof.
  rewrite getCreateTableQuery_outcome.
  destruct (first_unserializable (fields collection)); [ done | ].
  intros [= <-]. split.
  - intros Hname. unfold create_table.
    eexists _, _. split; [ reflexivity | ].
    rewrite escapeName_append. cbn [read_quoted_identifier].
    rewrite Ascii.eqb_refl.
    change (" (" +:+ ?x) with (String " " ("(" +:+ x)).
    by rewrite read_identifier_body_plain.
  - eexists. split; [ reflexivity | ].
    induction (fields collection) as [ | [n f] entries IH ]; cbn [map];
      constructor; [ | exact IH ].
    cbn [fst snd]. intros Hname. unfold column_clause.
    rewrite escapeName_append. cbn [read_quoted_identifier].
    rewrite Ascii.eqb_refl.
    change (" " +:+ ?x) with (String " " x).
    eexists. by rewrite read_identifier_body_plain.
Qed.

(** X11: a double quote in the name of the collection is not escaped:
    the lexer takes the part before it for the name of the table and
    the part after it for the text that follows. *)
Theorem quote_in_name_ends_identifier (before after : string)
    (collection : DBCollection) (statement : string) :
  has_char dquote_char before = false ->
  begins_with dquote_char (after +:+ dquote) = false ->
  getCreateTableQuery (before +:+ dquote +:+ after) collection
  = Returns statement ->
  exists input rest,
    strip_prefix "CREATE TABLE " statement = Some input
    /\ read_quoted_identifier input = Some (before, after +:+ rest).
Proof.
  intros Hbefore Hafter. rewrite getCreateTableQuery_outcome.
  destruct (first_unserializable (fields collection)); [ done | ].
  intros [= <-]. unfold create_table.
  eexists _, _. split; [ reflexivity | ].
  rewrite escapeName_append. cbn [read_quoted_identifier].
  rewrite Ascii.eqb_refl, !append_assoc, dquote_append.
  rewrite read_identifier_body_plain; [ reflexivity | done | ].
  destruct after as [ | c after' ]; [ done | ].
  by rewrite append_cons in *.
Qed.

End QuotedNames.

(** ** Defaults in the statement and in the model *)

Section Defaults.
Context `{Host}.

Lemma read_escapeString (s : string) :
  read_string_literal (sqlite.escapeString s) = Some (s, "").
Proof.
  unfold sqlite.escapeString. cbn [read_string_literal].
  rewrite Ascii.eqb_refl. by apply read_literal_body_escaped.
Qed.

(** X12: the literal generated for the default of a [json] field
    denotes, for an SQL lexer, the very string that the JSON codec of
    the column stores for the default, and which it decodes to the
    default itself. *)
Theorem json_default_decodes (columnName : string) (v : JSValue) :
  supported v ->
  exists literal stored,
    getDefaultValueSql columnName (JsonDefault v) = Returns literal
    /\ read_string_literal literal = Some (stored, "")
    /\ toDriver jsonType_params v = Returns stored
    /\ fromDriver jsonType_params stored = Returns v.
Proof.
  intros Hv. rewrite getDefaultValueSql_outcome, supported_acyclic by done.
  eexists _, _. split; [ reflexivity | ].
  split; [ apply read_escapeString | ]. split.
  - cbn [toDriver jsonType_params]. unfold JSON_stringify.
    by rewrite SerializeJSONProperty_acyclic, supported_acyclic.
  - by apply JSON_parse_text.
Qed.

(** X13: for a date field whose default is another string than
    ["now"], the literal of the statement denotes that string; the
    column of the model holds the same string in serialisable mode and,
    in codec mode, the date to which the date codec decodes it. *)
Theorem date_default_consistent (fieldName : string) (o u : bool)
    (value : string) :
  value <> "now" ->
  exists literal,
    getDefaultValueSql fieldName (DateDefault value) = Returns literal
    /\ read_string_literal literal = Some (value, "")
    /\ (forall c,
          columnMapper fieldName (field o u (DateField (Some value))) true
          = Returns c ->
          config_default c = Some (DefaultString value))
    /\ (forall c,
          columnMapper fieldName (field o u (DateField (Some value))) false
          = Returns c ->
          exists d,
            config_default c = Some (DefaultDate d)
            /\ fromDriver dateType_params value = Returns d).
Proof.
  intros Hnow. apply String.eqb_neq in Hnow.
  exists (sqlite.escapeString value). cbn [getDefaultValueSql].
  rewrite Hnow. split; [ done | ]. split; [ apply read_escapeString | ].
  unfold columnMapper. cbn [kind field]. rewrite Hnow. split.
  - cbn [bind]. intros c [= <-].
    by destruct o, u.
  - unfold z_coerce_date_parse. cbn [fromDriver dateType_params].
    destruct (new_Date value) as [t|]; [ | done ].
    cbn [bind]. intros c [= <-]. exists (ValidDate t). split; [ | done ].
    by destruct o, u.
Qed.

(** X14: the database-side default [CURRENT_TIMESTAMP] is what a
    runtime default (a date field with default ["now"]) gets, in the
    statement and in both modes of the model, and the model attaches a
    database-side default to no other field. *)
Theorem runtime_default_only_for_now (fieldName : string) (f : DBField) :
  (hasRuntimeDefault f = true ->
   hasDefault f = Some (DateDefault "now")
   /\ getDefaultValueSql fieldName (DateDefault "now")
      = Returns "CURRENT_TIMESTAMP"
   /\ forall mode,
        exists c,
          columnMapper fieldName f mode = Returns c
          /\ config_default c = Some (DefaultSql "CURRENT_TIMESTAMP"))
  /\ (forall mode c fragment,
        columnMapper fieldName f mode = Returns c ->
        config_default c = Some (DefaultSql fragment) ->
        hasRuntimeDefault f = true /\ fragment = "CURRENT_TIMESTAMP").
Proof.
  split.
  - destruct f as [o u k]. unfold hasRuntimeDefault, hasDefault. cbn [kind].
    destruct k as [ d | d | d | [d|] | d ]; try done.
    intros Hnow. apply String.eqb_eq in Hnow as ->.
    split; [ done | ]. split; [ done | ].
    intros mode. unfold columnMapper. cbn [kind].
    destruct mode; cbn [bind]; eexists; (split; [ reflexivity | ]).
    + by destruct o, u.
    + by destruct o, u.
  - intros mode c fragment Hc.
    destruct (columnMapper_shape _ _ _ _ Hc)
      as (base & -> & _ & _ & _ & _ & _ & _ & _ & Hsql).
    destruct (constrained_config f base) as (_ & -> & _).
    apply Hsql.
Qed.

End Defaults.

(** ** What the codecs lose and what they keep *)

Section CodecFacts.
Context `{Host}.

Lemma json_text_nulled (v : JSValue) : json_text (nulled v) = json_text v.
Proof.
  induction v as [ | b | n | s | elements IH | properties IH | k ]
    using JSValue_ind; try reflexivity.
  - cbn [nulled json_text]. destruct (Number_isFinite n) eqn:Hn; cbn [json_text];
      by rewrite ?Hn.
  - cbn [nulled json_text]. do 3 f_equal. rewrite map_map.
    induction IH as [ | e l He _ IHl ]; [ done | ].
    cbn [map]. by rewrite He, IHl.
  - cbn [nulled json_text]. do 3 f_equal. rewrite map_map.
    induction IH as [ | [P e] l He _ IHl ]; [ done | ].
    cbn [map fst snd] in *. by rewrite He, IHl.
Qed.

Lemma acyclic_nulled (v : JSValue) : acyclic (nulled v) = acyclic v.
Proof.
  induction v as [ | b | n | s | elements IH | properties IH | k ]
    using JSValue_ind; try reflexivity.
  - cbn [nulled]. by destruct (Number_isFinite n).
  - cbn [nulled acyclic].
    induction IH as [ | e l He _ IHl ]; [ done | ].
    cbn [map forallb]. by rewrite He, IHl.
  - cbn [nulled acyclic].
    induction IH as [ | [P e] l He _ IHl ]; [ done | ].
    cbn [map forallb fst snd] in *. by rewrite He, IHl.
Qed.

(** X15: a Number that is not finite does not make a value
    unserialisable: it is written as [null].  A value stored by the
    JSON codec comes back with every such Number replaced by [null],
    and the literal generated for it as a default is the literal of
    that value. *)
Theorem non_finite_numbers_become_null (columnName : string) (v : JSValue) :
  supported (nulled v) ->
  (do stored <- toDriver jsonType_params v; fromDriver jsonType_params stored)
  = Returns (nulled v)
  /\ getDefaultValueSql columnName (JsonDefault v)
     = getDefaultValueSql columnName (JsonDefault (nulled v))
  /\ exists literal,
       getDefaultValueSql columnName (JsonDefault v) = Returns literal.
Proof.
  intros Hv. pose proof (supported_acyclic _ Hv) as Hacyclic.
  rewrite acyclic_nulled in Hacyclic. split; [ | split ].
  - cbn [toDriver fromDriver jsonType_params]. unfold JSON_stringify.
    rewrite SerializeJSONProperty_acyclic, Hacyclic. cbn [bind].
    rewrite <- json_text_nulled. by apply JSON_parse_text.
  - rewrite !getDefaultValueSql_outcome, acyclic_nulled, Hacyclic.
    cbn [default_literal]. by rewrite json_text_nulled.
  - rewrite getDefaultValueSql_outcome, Hacyclic. by eexists.
Qed.

(** X16: the codecs store different values as different strings: two
    valid dates with the same ISO string are the same date, and two
    supported JSON values with the same text are the same value. *)
Theorem codecs_injective :
  (forall t t' : Z,
      DateAlgorithms.in_time_range t -> DateAlgorithms.in_time_range t' ->
      toDriver dateType_params (ValidDate t)
      = toDriver dateType_params (ValidDate t') ->
      t = t')
  /\ (forall v v' : JSValue,
         supported v -> supported v' ->
         toDriver jsonType_params v = toDriver jsonType_params v' ->
         v = v').
Proof.
  split.
  - intros t t' Ht Ht'. cbn [toDriver dateType_params DateAlgorithms.toISOString].
    intros [= Hsame].
    pose proof (parse_iso_string t Ht) as Hparse.
    rewrite Hsame, parse_iso_string in Hparse by done. congruence.
  - intros v v' Hv Hv'. cbn [toDriver jsonType_params]. unfold JSON_stringify.
    rewrite !SerializeJSONProperty_acyclic, !supported_acyclic by done.
    intros [= Hsame].
    pose proof (JSON_parse_text v Hv) as Hparse.
    rewrite Hsame, JSON_parse_text in Hparse by done. congruence.
Qed.

End CodecFacts.

(** ** The order of stored dates *)

Section DateOrder.
Import DateAlgorithms.
Local Open Scope Z_scope.

Lemma digit_char_compare (a b : Z) :
  0 <= a <= 9 -> 0 <= b <= 9 ->
  Ascii.compare (digit_char a) (digit_char b) = (a ?= b).
Proof.
  intros Ha Hb.
  assert (Hcases : forall d, 0 <= d <= 9 ->
            d = 0 \/ d = 1 \/ d = 2 \/ d = 3 \/ d = 4 \/ d = 5
            \/ d = 6 \/ d = 7 \/ d = 8 \/ d = 9) by (intros; lia).
  destruct (Hcases a Ha) as [-> | [-> | [-> | [-> | [-> | [-> | [-> | [-> | [-> | ->]]]]]]]]];
    destruct (Hcases b Hb) as [-> | [-> | [-> | [-> | [-> | [-> | [-> | [-> | [-> | ->]]]]]]]]];
    by vm_compute.
Qed.

Lemma compare_cons (c c' : ascii) (s s' : string) :
  String.compare (String c s) (String c' s')
  = match Ascii.compare c c' with
    | Eq => String.compare s s'
    | other => other
    end.
Proof. reflexivity. Qed.


Ltac settle_compare x y tac :=
  first
    [ replace (x ?= y) with Eq by (symmetry; apply Z.compare_eq_iff; tac)
    | replace (x ?= y) with Lt by (symmetry; apply Z.compare_lt_iff; tac)
    | replace (x ?= y) with Gt by (symmetry; apply Z.compare_gt_iff; tac) ];
  try reflexivity.

(** Numerals of the same width compare as the numbers they denote. *)
Lemma fixed_digits_compare (width : nat) :
  forall (a b : Z) (tail tail' : string),
    0 <= a < 10 ^ Z.of_nat width -> 0 <= b < 10 ^ Z.of_nat width ->
    String.compare (fixed_digits width a tail) (fixed_digits width b tail')
    = match a ?= b with
      | Eq => String.compare tail tail'
      | other => other
      end.
Proof.
  induction width as [ | width IH ]; intros a b tail tail' Ha Hb.
  - change (10 ^ Z.of_nat 0) with 1 in *.
    assert (a = 0) as -> by lia. assert (b = 0) as -> by lia. reflexivity.
  - rewrite Nat2Z.inj_succ, Z.pow_succ_r in Ha, Hb by lia.
    cbn [fixed_digits].
    rewrite IH by (Z.div_mod_to_equations; lia).
    rewrite compare_cons, digit_char_compare
      by (Z.div_mod_to_equations; lia).
    destruct (Z.compare_spec (a / 10) (b / 10)) as [Hq | Hq | Hq];
      [ destruct (Z.compare_spec (a mod 10) (b mod 10)) as [Hr | Hr | Hr] | | ];
      settle_compare a b ltac:(Z.div_mod_to_equations; lia).
Qed.

Lemma DayFromYear_mono (y y' : Z) : y <= y' -> DayFromYear y <= DayFromYear y'.
Proof.
  unfold DayFromYear. intros Hy.
  destruct (Z.eq_dec y y') as [-> | Hne]; [ lia | ].
  assert ((y - 1969) / 4 <= (y' - 1969) / 4)
    by (apply Z.div_le_mono; lia).
  assert ((y - 1601) / 400 <= (y' - 1601) / 400)
    by (apply Z.div_le_mono; lia).
  assert ((y' - 1901) / 100 - (y - 1901) / 100 <= y' - y)
    by (Z.div_mod_to_equations; lia).
  lia.
Qed.

Lemma month_start_mono (m m' leap : Z) :
  0 <= m -> m < m' -> m' <= 11 -> 0 <= leap <= 1 ->
  month_start (m + 1) leap <= month_start m' leap.
Proof.
  intros Hm Hlt Hm' Hleap.
  assert (Hcases : forall k, 0 <= k <= 11 ->
            k = 0 \/ k = 1 \/ k = 2 \/ k = 3 \/ k = 4 \/ k = 5 \/ k = 6
            \/ k = 7 \/ k = 8 \/ k = 9 \/ k = 10 \/ k = 11) by (intros; lia).
  destruct (Hcases m ltac:(lia)) as [-> | [-> | [-> | [-> | [-> | [-> | [-> | [-> | [-> | [-> | [-> | ->]]]]]]]]]]];
    destruct (Hcases m' ltac:(lia)) as [-> | [-> | [-> | [-> | [-> | [-> | [-> | [-> | [-> | [-> | [-> | ->]]]]]]]]]]];
    try lia;
    repeat match goal with
           | |- context [ month_start (?k + 1) ?l ] =>
               let k' := eval vm_compute in (k + 1) in
               change (k + 1) with k'
           end;
    cbn [month_start]; lia.
Qed.

(** The calendar date orders the days. *)
Lemma date_fields_compare (t t' : Z) (next : comparison) :
  match YearFromTime t ?= YearFromTime t' with
  | Eq =>
      match MonthFromTime t + 1 ?= MonthFromTime t' + 1 with
      | Eq =>
          match DateFromTime t ?= DateFromTime t' with
          | Eq => next
          | other => other
          end
      | other => other
      end
  | other => other
  end
  = match Day t ?= Day t' with
    | Eq => next
    | other => other
    end.
Proof.
  pose proof (YearFromTime_spec t) as Hy.
  pose proof (YearFromTime_spec t') as Hy'.
  destruct (MonthFromTime_bounds t) as [Hm Hd].
  destruct (MonthFromTime_bounds t') as [Hm' Hd'].
  pose proof (InLeapYear_range t) as Hl.
  pose proof (InLeapYear_range t') as Hl'.
  unfold DateFromTime.
  unfold DayWithinYear in *.
  destruct (Z.compare_spec (YearFromTime t) (YearFromTime t'))
    as [Hyear | Hyear | Hyear].
  - assert (Hleap : InLeapYear t = InLeapYear t')
      by (unfold InLeapYear; by rewrite Hyear).
    rewrite Hyear, Hleap in *.
    destruct (Z.compare_spec (MonthFromTime t + 1) (MonthFromTime t' + 1))
      as [Hmonth | Hmonth | Hmonth].
    + assert (Hsame : MonthFromTime t = MonthFromTime t') by lia.
      rewrite Hsame in *.
      destruct (Z.compare_spec
                  (Day t - DayFromYear (YearFromTime t')
                   - month_start (MonthFromTime t') (InLeapYear t') + 1)
                  (Day t' - DayFromYear (YearFromTime t')
                   - month_start (MonthFromTime t') (InLeapYear t') + 1));
        settle_compare (Day t) (Day t') lia.
    + pose proof (month_start_mono (MonthFromTime t) (MonthFromTime t')
                    (InLeapYear t') ltac:(lia) ltac:(lia) ltac:(lia) Hl').
      settle_compare (Day t) (Day t') lia.
    + pose proof (month_start_mono (MonthFromTime t') (MonthFromTime t)
                    (InLeapYear t') ltac:(lia) ltac:(lia) ltac:(lia) Hl').
      settle_compare (Day t) (Day t') lia.
  - pose proof (DayFromYear_mono (YearFromTime t + 1) (YearFromTime t')
                  ltac:(lia)).
    settle_compare (Day t) (Day t') lia.
  - pose proof (DayFromYear_mono (YearFromTime t' + 1) (YearFromTime t)
                  ltac:(lia)).
    settle_compare (Day t) (Day t') lia.
Qed.

(** The time of day orders the milliseconds of a day. *)
Lemma time_fields_compare (t t' : Z) :
  match HourFromTime t ?= HourFromTime t' with
  | Eq =>
      match MinFromTime t ?= MinFromTime t' with
      | Eq =>
          match SecFromTime t ?= SecFromTime t' with
          | Eq => msFromTime t ?= msFromTime t'
          | other => other
          end
      | other => other
      end
  | other => other
  end
  = (TimeWithinDay t ?= TimeWithinDay t').
Proof.
  rewrite <- (MakeTime_FromTime t), <- (MakeTime_FromTime t').
  assert (Hh : 0 <= HourFromTime t <= 23 /\ 0 <= HourFromTime t' <= 23)
    by (unfold HourFromTime; Z.div_mod_to_equations; lia).
  assert (Hm : 0 <= MinFromTime t <= 59 /\ 0 <= MinFromTime t' <= 59)
    by (unfold MinFromTime; Z.div_mod_to_equations; lia).
  assert (Hs : 0 <= SecFromTime t <= 59 /\ 0 <= SecFromTime t' <= 59)
    by (unfold SecFromTime; Z.div_mod_to_equations; lia).
  assert (Hms : 0 <= msFromTime t <= 999 /\ 0 <= msFromTime t' <= 999)
    by (unfold msFromTime, msPerSecond; Z.div_mod_to_equations; lia).
  unfold MakeTime, msPerHour, msPerMinute, msPerSecond.
  generalize dependent (HourFromTime t). generalize dependent (HourFromTime t').
  generalize dependent (MinFromTime t). generalize dependent (MinFromTime t').
  generalize dependent (SecFromTime t). generalize dependent (SecFromTime t').
  generalize dependent (msFromTime t). generalize dependent (msFromTime t').
  intros ms' ms Hms s' s Hs m' m Hm h' h Hh.
  destruct (Z.compare_spec h h'); [ | symmetry .. ];
    [ | apply Z.compare_lt_iff; lia | apply Z.compare_gt_iff; lia ].
  destruct (Z.compare_spec m m'); [ | symmetry .. ];
    [ | apply Z.compare_lt_iff; lia | apply Z.compare_gt_iff; lia ].
  destruct (Z.compare_spec s s'); [ | symmetry .. ];
    [ | apply Z.compare_lt_iff; lia | apply Z.compare_gt_iff; lia ].
  subst. destruct (Z.compare_spec ms ms'); symmetry;
    [ apply Z.compare_eq_iff | apply Z.compare_lt_iff
    | apply Z.compare_gt_iff ]; lia.
Qed.

Lemma day_and_time_compare (t t' : Z) :
  match Day t ?= Day t' with
  | Eq => TimeWithinDay t ?= TimeWithinDay t'
  | other => other
  end
  = (t ?= t').
Proof.
  unfold Day, TimeWithinDay, msPerDay.
  destruct (Z.compare_spec (t / 86400000) (t' / 86400000));
    [ destruct (Z.compare_spec (t mod 86400000) (t' mod 86400000)) | | ];
    symmetry;
    first [ apply Z.compare_eq_iff | apply Z.compare_lt_iff
          | apply Z.compare_gt_iff ];
    Z.div_mod_to_equations; lia.
Qed.

Lemma separator_compare (c : ascii) (s s' : string) :
  String.compare (String c s) (String c s') = String.compare s s'.
Proof.
  rewrite compare_cons.
  assert (Ascii.compare c c = Eq) as ->; [ | done ].
  unfold Ascii.compare. apply N.compare_refl.
Qed.

(** ISO strings with a year of four digits compare, character by
    character, as the times they denote. *)
Lemma iso_string_compare (t t' : Z) :
  0 <= YearFromTime t <= 9999 -> 0 <= YearFromTime t' <= 9999 ->
  String.compare (iso_string t) (iso_string t') = (t ?= t').
Proof.
  intros Hy Hy'.
  destruct (MonthFromTime_bounds t) as [Hm _].
  destruct (MonthFromTime_bounds t') as [Hm' _].
  pose proof (DateFromTime_range t) as Hd.
  pose proof (DateFromTime_range t') as Hd'.
  pose proof (DaysInMonth_bound _ _ Hm (InLeapYear_range t)).
  pose proof (DaysInMonth_bound _ _ Hm' (InLeapYear_range t')).
  assert (Hh : 0 <= HourFromTime t <= 23 /\ 0 <= HourFromTime t' <= 23)
    by (unfold HourFromTime; Z.div_mod_to_equations; lia).
  assert (Hmin : 0 <= MinFromTime t <= 59 /\ 0 <= MinFromTime t' <= 59)
    by (unfold MinFromTime; Z.div_mod_to_equations; lia).
  assert (Hs : 0 <= SecFromTime t <= 59 /\ 0 <= SecFromTime t' <= 59)
    by (unfold SecFromTime; Z.div_mod_to_equations; lia).
  assert (Hms : 0 <= msFromTime t <= 999 /\ 0 <= msFromTime t' <= 999)
    by (unfold msFromTime, msPerSecond; Z.div_mod_to_equations; lia).
  unfold iso_string, year_numeral.
  destruct (Z.leb_spec 0 (YearFromTime t)); [ | lia ].
  destruct (Z.leb_spec (YearFromTime t) 9999); [ | lia ].
  destruct (Z.leb_spec 0 (YearFromTime t')); [ | lia ].
  destruct (Z.leb_spec (YearFromTime t') 9999); [ | lia ].
  cbn [andb].
  rewrite fixed_digits_compare, separator_compare by lia.
  rewrite fixed_digits_compare, separator_compare by lia.
  rewrite fixed_digits_compare, separator_compare by lia.
  rewrite fixed_digits_compare, separator_compare by lia.
  rewrite fixed_digits_compare, separator_compare by lia.
  rewrite fixed_digits_compare, separator_compare by lia.
  rewrite fixed_digits_compare by lia.
  change (String.compare "Z" "Z") with Eq.
  rewrite <- (day_and_time_compare t t'), <- (time_fields_compare t t').
  rewrite <- (date_fields_compare t t').
  destruct (msFromTime t ?= msFromTime t'); reflexivity.
Qed.

Lemma sign_before_digit (negative : bool) (d : Z) :
  0 <= d <= 9 ->
  Ascii.compare (if negative then "-"%char else "+"%char) (digit_char d) = Lt.
Proof.
  intros Hd.
  assert (Hcases : d = 0 \/ d = 1 \/ d = 2 \/ d = 3 \/ d = 4 \/ d = 5
                   \/ d = 6 \/ d = 7 \/ d = 8 \/ d = 9) by lia.
  destruct negative;
    destruct Hcases as [-> | [-> | [-> | [-> | [-> | [-> | [-> | [-> | [-> | ->]]]]]]]]];
    by vm_compute.
Qed.

(** An ISO string with an expanded year begins with a sign, which comes
    before every digit. *)
Lemma expanded_year_compare (t t' : Z) :
  ~ 0 <= YearFromTime t <= 9999 -> 0 <= YearFromTime t' <= 9999 ->
  String.compare (iso_string t) (iso_string t') = Lt.
Proof.
  intros Hy Hy'. unfold iso_string, year_numeral.
  destruct (Z.leb_spec 0 (YearFromTime t')); [ | lia ].
  destruct (Z.leb_spec (YearFromTime t') 9999); [ | lia ].
  replace ((0 <=? YearFromTime t) && (YearFromTime t <=? 9999)) with false
    by (symmetry; apply andb_false_iff; rewrite !Z.leb_gt; lia).
  cbn [andb fixed_digits].
  rewrite compare_cons, sign_before_digit; [ done | ].
  Z.div_mod_to_equations; lia.
Qed.

End DateOrder.

Section StoredDates.
Context `{Host}.

(** X17: the strings the date codec stores for two dates whose years
    lie between 0 and 9999 compare, character by character, as the
    dates do: a text column of stored dates sorts in time order. *)
Theorem stored_dates_sort_by_time (t t' : Z) (stored stored' : string) :
  (0 <= DateAlgorithms.YearFromTime t <= 9999)%Z ->
  (0 <= DateAlgorithms.YearFromTime t' <= 9999)%Z ->
  toDriver dateType_params (ValidDate t) = Returns stored ->
  toDriver dateType_params (ValidDate t') = Returns stored' ->
  String.compare stored stored' = (t ?= t')%Z.
Proof.
  intros Hy Hy'. cbn [toDriver dateType_params DateAlgorithms.toISOString].
  intros [= <-] [= <-]. by apply iso_string_compare.
Qed.


End StoredDates.

(** ** Scenarios of the further properties *)


Lemma model_type_agrees_with_ddl_witness :
  exists c,
    columnMapper "createdAt" (field false false (DateField (Some "now"))) false
    = Returns c
    /\ getSQLType (config_columnType c) = "text".
Proof.
  eexists. split; [ reflexivity | ].
  apply (model_type_agrees_with_ddl "createdAt"
           (field false false (DateField (Some "now"))) false).
  reflexivity.
Defined.

Lemma model_constraints_agree_with_ddl_witness :
  exists c,
    columnMapper "slug" (field false true (TextField (Some "none"))) true
    = Returns c
    /\ config_name c = "slug"
    /\ config_notNull c = true
    /\ config_isUnique c = true
    /\ config_hasDefault c = true
    /\ config_primaryKey c = false
    /\ config_defaultFn c = None.
Proof.
  eexists. split; [ reflexivity | ].
  destruct (model_constraints_agree_with_ddl "slug"
              (field false true (TextField (Some "none"))) true _ eq_refl)
    as (Hname & Hnull & Hunique & Hdefault & Hkey & Hfn & _).
  by repeat split.
Defined.

Lemma columnMapper_failures_witness :
  (exists c,
      columnMapper "at" (field false false (DateField (Some "soon"))) true
      = Returns c)
  /\ columnMapper "at" (field false false (DateField (Some "soon"))) false
     = Throws (ZodError "Invalid date").
Proof.
  destruct (columnMapper_failures "at"
              (field false false (DateField (Some "soon")))) as [Hmode Hcodec].
  split; [ exact Hmode | reflexivity ].
Defined.

Lemma collectionToTable_independent_witness :
  (collectionToTable "posts" posts false
     (collectionToTable "broken" cyclic_collection true module_store).2).1
  = (collectionToTable "posts" posts false module_store).1.
Proof.
  apply (collectionToTable_independent "posts" posts false module_store).
  reflexivity.
Defined.

Lemma collectionToTable_serializable_total_witness :
  exists table,
    (collectionToTable "broken" cyclic_collection true module_store).1
    = Returns table
    /\ tableName table = "broken".
Proof.
  apply (collectionToTable_serializable_total "broken" cyclic_collection
           module_store).
  reflexivity.
Defined.

Lemma id_field_replaces_implicit_column_witness :
  exists table c,
    (collectionToTable "things" id_collection true module_store).1
    = Returns table
    /\ columnMapper "id" (field true false (NumberField None)) true = Returns c
    /\ tableColumns table !! "id" = Some c
    /\ config_primaryKey c = false
    /\ config_defaultFn c = None
    /\ c <> id_column.
Proof.
  assert (Hnames : List.NoDup (field_names id_collection)).
  { constructor; [ intros [ Heq | [] ]; discriminate | ].
    constructor; [ intros [] | constructor ]. }
  destruct (id_field_replaces_implicit_column "things" id_collection true
              module_store (field true false (NumberField None)) _
              eq_refl Hnames (or_introl eq_refl) eq_refl)
    as [(c & Hc & Hid & Hkey & Hfn & Hne) _].
  eexists _, c. split; [ reflexivity | ]. by repeat split.
Defined.

Lemma generateId_url_safe_witness :
  let r := {| bytes := fun j => N.of_nat (37 * j); poolOffset := 0 |} in
  let r' := {| bytes := fun j => if (j <? 12)%nat then N.of_nat (37 * j) else 0%N;
               poolOffset := 0 |} in
  all_chars url_safe (generateId r).1 = true
  /\ (generateId r').1 = (generateId r).1.
Proof.
  intros r r'.
  destruct (generateId_url_safe r) as (Hsafe & _ & _ & Hwindow & _).
  split; [ exact Hsafe | ].
  apply Hwindow; [ reflexivity | ].
  intros j Hj. cbn [bytes r r' poolOffset] in *.
  destruct (Nat.ltb_spec j 12); [ reflexivity | lia ].
Defined.

Lemma names_without_quote_read_back_witness :
  exists statement after rest,
    getCreateTableQuery "order"
      {| fields := [("group by", field false false (NumberField None))] |}
    = Returns statement
    /\ strip_prefix "CREATE TABLE " statement = Some after
    /\ read_quoted_identifier after = Some ("order", String " " rest).
Proof.
  destruct (names_without_quote_read_back "order"
              {| fields := [("group by", field false false (NumberField None))] |}
              _ eq_refl) as [Hname _].
  destruct (Hname eq_refl) as (after & rest & Hprefix & Hread).
  eexists _, after, rest. split; [ reflexivity | ]. by split.
Defined.

Lemma quote_in_name_ends_identifier_witness :
  exists statement input rest,
    getCreateTableQuery ("a" +:+ dquote +:+ " b") posts = Returns statement
    /\ strip_prefix "CREATE TABLE " statement = Some input
    /\ read_quoted_identifier input = Some ("a", " b" +:+ rest).
Proof.
  destruct (quote_in_name_ends_identifier "a" " b" posts _
              eq_refl eq_refl eq_refl) as (input & rest & Hprefix & Hread).
  eexists _, input, rest. split; [ reflexivity | ]. by split.
Defined.

Lemma json_default_decodes_witness :
  exists literal stored,
    getDefaultValueSql "data" (JsonDefault sample_value) = Returns literal
    /\ read_string_literal literal = Some (stored, "")
    /\ toDriver jsonType_params sample_value = Returns stored
    /\ fromDriver jsonType_params stored = Returns sample_value.
Proof.
  apply (json_default_decodes "data" sample_value).
  cbn [supported sample_value snd map fst enumeration_order].
  repeat split; try apply integer_roundtrips;
    repeat constructor; try (vm_compute; (lia || discriminate)).
Defined.

Lemma date_default_consistent_witness :
  exists literal,
    getDefaultValueSql "at" (DateDefault "2024-02-29T12:00:00.000Z")
    = Returns literal
    /\ read_string_literal literal = Some ("2024-02-29T12:00:00.000Z", "").
Proof.
  destruct (date_default_consistent "at" false false
              "2024-02-29T12:00:00.000Z" ltac:(discriminate))
    as (literal & Hliteral & Hread & _).
  by exists literal.
Defined.

Lemma runtime_default_only_for_now_witness :
  hasRuntimeDefault (field false false (DateField (Some "now"))) = true
  /\ (exists c,
        columnMapper "createdAt" (field false false (DateField (Some "now")))
          true
        = Returns c
        /\ config_default c = Some (DefaultSql "CURRENT_TIMESTAMP"))
  /\ (exists c,
        columnMapper "createdAt" (field false false (DateField (Some "now")))
          false
        = Returns c
        /\ config_default c = Some (DefaultSql "CURRENT_TIMESTAMP")).
Proof.
  destruct (runtime_default_only_for_now "createdAt"
              (field false false (DateField (Some "now")))) as [Hnow _].
  destruct (Hnow eq_refl) as (_ & _ & Hmodel).
  split; [ reflexivity | ]. split; apply Hmodel.
Defined.

Lemma non_finite_numbers_become_null_witness :
  (do stored <- toDriver (jsonType_params (H := nan_host)) nan_value;
   fromDriver (jsonType_params (H := nan_host)) stored)
  = Returns (nulled (H := nan_host) nan_value)
  /\ exists literal,
       getDefaultValueSql (H := nan_host) "data"
         (JsonDefault (H := nan_host) nan_value)
       = Returns literal.
Proof.
  destruct (non_finite_numbers_become_null (H := nan_host) "data" nan_value)
    as (Hback & _ & Hliteral).
  - cbn. repeat split; vm_compute; reflexivity.
  - by split.
Defined.

Lemma codecs_injective_witness :
  DateAlgorithms.in_time_range 1700000000123
  /\ toDriver dateType_params (ValidDate 1700000000123)
     = Returns "2023-11-14T22:13:20.123Z"
  /\ 1700000000123%Z = 1700000000123%Z.
Proof.
  destruct codecs_injective as [Hdates _].
  assert (Hrange : DateAlgorithms.in_time_range 1700000000123)
    by (unfold DateAlgorithms.in_time_range, DateAlgorithms.maxTime; lia).
  split; [ exact Hrange | ]. split; [ reflexivity | ].
  apply Hdates; [ exact Hrange | exact Hrange | reflexivity ].
Defined.

Lemma stored_dates_sort_by_time_witness :
  String.compare "1970-01-01T00:00:00.000Z" "2023-11-14T22:13:20.123Z" = Lt.
Proof.
  apply (stored_dates_sort_by_time 0%Z 1700000000123%Z);
    first [ reflexivity | vm_compute; split; discriminate ].
Defined.

